(** * TPP compiler: matchers, linalg-to-xsmm lowering and packing

    A shallow embedding of
      - lib/TPP/Dialect/Tpp/TppUtils.cpp      (module [TppUtils]),
      - lib/TPP/ConvertLinalgToXsmm.cpp       (module [LinalgToXsmm]),
      - the pack/unpack operations declared in
        include/TPP/Dialect/LinalgX/LinalgXOps.td (module [LinalgX]),
    together with the small part of the MLIR core the code queries
    (module [Mlir]): SSA values, operations, affine maps. *)

From Stdlib Require Import ZArith Lia String.
From Stdlib Require Import Ascii.
From stdpp Require Import base option list.

Set Warnings "-register-all".

#[local] Open Scope Z_scope.

(** ** The MLIR core, as far as the sources look at it *)
Module Mlir.

(** Builtin types.  A shaped type carries its shape, one [int64_t] per
    dimension, a dynamic extent being the sentinel [kDynamic]. *)
Inductive MType :=
| FloatType (width : nat)
| IntegerType (width : nat)
| IndexType
| MemRefType (shape : list Z)
| RankedTensorType (shape : list Z)
| UnrankedMemRefType
| UnrankedTensorType
| OpaqueType.

(** [ShapedType::kDynamic], [std::numeric_limits<int64_t>::min()]. *)
Definition kDynamic : Z := - 2 ^ 63.

Definition isDynamic (d : Z) : bool := bool_decide (d = kDynamic).

Definition isShapedType (t : MType) : bool :=
  match t with
  | MemRefType _ | RankedTensorType _ | UnrankedMemRefType
  | UnrankedTensorType => true
  | _ => false
  end.

Definition isIntOrFloat (t : MType) : bool :=
  match t with
  | FloatType _ | IntegerType _ => true
  | _ => false
  end.

(** [ShapedType::getShape]; the C++ asserts that the type is ranked. *)
Definition getShape (t : MType) : option (list Z) :=
  match t with
  | MemRefType s | RankedTensorType s => Some s
  | _ => None
  end.

(** Attribute of an [arith.constant]. *)
Inductive Attribute :=
| FloatAttr (isZero : bool)          (* APFloat::isZero, either sign *)
| IntegerAttr (value : Z)
| SplatFloatAttr (isZero : bool)
| SplatIntegerAttr (value : Z)
| OtherAttr.

(** Operation names the sources dispatch on. *)
Inductive OpName :=
| ArithConstantOp (value : Attribute)
| ArithAddFOp | ArithMulFOp | ArithAddIOp | ArithMulIOp | ArithMaxFOp
| LinalgYieldOp
| LinalgFillOp | LinalgCopyOp | LinalgGenericOp | LinalgTransposeOp
| MemrefCopyOp | MemrefSubViewOp
| TensorCastOp | TensorExtractSliceOp
| OtherOp (name : string).

(** SSA values and operations.  A value is a block argument or a result of
    its defining operation; an operation is identified by [opId] (the
    pointer identity of the C++ object), and lists its operands, the types
    of its results and the operations of its nested regions.  For an
    operation in destination-passing style the first [numInputs] operands
    are its inputs. *)
Inductive Value :=
| BlockArgument (owner : nat) (argNumber : nat) (ty : MType)
| OpResult (definingOp : Operation) (resultNumber : nat)
with Operation :=
| mkOperation (opId : nat) (name : OpName) (operands : list Value)
    (numInputs : nat) (resultTypes : list MType) (nested : list Operation).

Definition getOpId (op : Operation) : nat :=
  let 'mkOperation i _ _ _ _ _ := op in i.
Definition getName (op : Operation) : OpName :=
  let 'mkOperation _ n _ _ _ _ := op in n.
Definition getOperands (op : Operation) : list Value :=
  let 'mkOperation _ _ os _ _ _ := op in os.
Definition getNumOperands (op : Operation) : nat := length (getOperands op).
Definition getResultTypes (op : Operation) : list MType :=
  let 'mkOperation _ _ _ _ ts _ := op in ts.
Definition getNested (op : Operation) : list Operation :=
  let 'mkOperation _ _ _ _ _ ns := op in ns.
(** [getInputs] of a destination-passing-style operation. *)
Definition getInputs (op : Operation) : list Value :=
  let 'mkOperation _ _ os n _ _ := op in take n os.
Definition getInits (op : Operation) : list Value :=
  let 'mkOperation _ _ os n _ _ := op in drop n os.

(** [Value::getDefiningOp], null for a block argument. *)
Definition getDefiningOp (v : Value) : option Operation :=
  match v with
  | BlockArgument _ _ _ => None
  | OpResult op _ => Some op
  end.

Definition getType (v : Value) : MType :=
  match v with
  | BlockArgument _ _ ty => ty
  | OpResult op i => default OpaqueType (getResultTypes op !! i)
  end.

(** [Value::operator==]: the same argument of the same block, or the same
    result of the same operation. *)
Definition valueEq (v w : Value) : bool :=
  match v, w with
  | BlockArgument b i _, BlockArgument c j _ =>
      bool_decide (b = c) && bool_decide (i = j)
  | OpResult o i, OpResult p j =>
      bool_decide (getOpId o = getOpId p) && bool_decide (i = j)
  | _, _ => false
  end.

Definition opEq (o p : Operation) : bool :=
  bool_decide (getOpId o = getOpId p).

(** A block: its arguments and its operations, the terminator last.  A
    region is a list of blocks. *)
Record Block := {
  blockId : nat;
  blockArgTypes : list MType;
  blockOps : list Operation
}.

Definition Region := list Block.

Definition getNumArguments (b : Block) : nat := length (blockArgTypes b).
Definition getArgument (b : Block) (i : nat) : Value :=
  BlockArgument (blockId b) i (default OpaqueType (blockArgTypes b !! i)).
Definition getArguments (b : Block) : list Value :=
  imap (fun i ty => BlockArgument (blockId b) i ty) (blockArgTypes b).

Definition hasOneBlock (r : Region) : bool :=
  match r with [_] => true | _ => false end.

(** [Block::walk]: the operations of the block and of everything nested in
    them, the nested ones first (post-order). *)
Fixpoint walkOp (op : Operation) : list Operation :=
  let 'mkOperation _ _ _ _ _ ns := op in
  (fix walkList (l : list Operation) : list Operation :=
     match l with
     | [] => []
     | o :: l' => walkOp o ++ walkList l'
     end) ns ++ [op].

Definition walk (b : Block) : list Operation :=
  concat (map walkOp (blockOps b)).

End Mlir.

(** ** Affine expressions and maps ([mlir/IR/AffineExpr.h], [AffineMap.h]) *)
Module Affine.

Inductive AffineExprKind := Add | Mul | Mod | FloorDiv | CeilDiv.

Inductive AffineExpr :=
| AffineDimExpr (position : nat)
| AffineSymbolExpr (position : nat)
| AffineConstantExpr (value : Z)
| AffineBinaryOpExpr (kind : AffineExprKind) (lhs rhs : AffineExpr).

#[global] Instance AffineExprKind_eq_dec : EqDecision AffineExprKind.
Proof. solve_decision. Defined.
#[global] Instance AffineExpr_eq_dec : EqDecision AffineExpr.
Proof. solve_decision. Defined.

(** An affine map [(d0, ..)[s0, ..] -> (results)]. *)
Record AffineMap := {
  numDims : nat;
  numSymbols : nat;
  results : list AffineExpr
}.

#[global] Instance AffineMap_eq_dec : EqDecision AffineMap.
Proof. solve_decision. Defined.

Definition getNumDims (m : AffineMap) : nat := numDims m.
Definition getNumSymbols (m : AffineMap) : nat := numSymbols m.
Definition getNumInputs (m : AffineMap) : nat := numDims m + numSymbols m.
Definition getNumResults (m : AffineMap) : nat := length (results m).

Definition getAffineConstantExpr (c : Z) : AffineExpr := AffineConstantExpr c.

(** [AffineMap::insertResult(expr, pos)]. *)
Definition insertResult (m : AffineMap) (e : AffineExpr) (pos : nat)
  : AffineMap :=
  {| numDims := numDims m; numSymbols := numSymbols m;
     results := take pos (results m) ++ e :: drop pos (results m) |}.

(** The loop of [AffineMap::isProjectedPermutation] over the results, with
    the vector [seen] of the input dimensions met so far. *)
Fixpoint projectedPermutationLoop (allowZeroInResults : bool)
    (exprs : list AffineExpr) (seen : list bool) : bool :=
  match exprs with
  | [] => true
  | AffineDimExpr p :: rest =>
      if default false (seen !! p) then false
      else projectedPermutationLoop allowZeroInResults rest (<[p:=true]> seen)
  | AffineConstantExpr c :: rest =>
      if negb allowZeroInResults || negb (c =? 0) then false
      else projectedPermutationLoop allowZeroInResults rest seen
  | _ :: _ => false
  end.

Definition isProjectedPermutation (m : AffineMap) (allowZeroInResults : bool)
  : bool :=
  if (0 <? getNumSymbols m)%nat then false
  else if (getNumInputs m <? getNumResults m)%nat then false
  else projectedPermutationLoop allowZeroInResults (results m)
         (replicate (getNumInputs m) false).

(** The loop of [AffineMap::isMinorIdentityWithBroadcasting]: [None] when
    the map is rejected, otherwise the result positions holding the
    constant 0, in increasing order. *)
Fixpoint minorIdentityLoop (suffixStart resIdx : nat)
    (exprs : list AffineExpr) (broadcastedDims : list nat)
  : option (list nat) :=
  match exprs with
  | [] => Some broadcastedDims
  | AffineConstantExpr c :: rest =>
      if negb (c =? 0) then None
      else minorIdentityLoop suffixStart (S resIdx) rest
             (broadcastedDims ++ [resIdx])
  | AffineDimExpr p :: rest =>
      if negb (p =? suffixStart + resIdx)%nat then None
      else minorIdentityLoop suffixStart (S resIdx) rest broadcastedDims
  | _ :: _ => None
  end.

Definition isMinorIdentityWithBroadcasting (m : AffineMap)
  : option (list nat) :=
  if (getNumDims m <? getNumResults m)%nat then None
  else minorIdentityLoop (getNumDims m - getNumResults m) 0 (results m) [].

(** [getMaxDimAndSymbol] and [AffineMap::inferFromExprList]. *)
Fixpoint maxDimAndSymbol (e : AffineExpr) (acc : Z * Z) : Z * Z :=
  match e with
  | AffineDimExpr p => (Z.max (fst acc) (Z.of_nat p), snd acc)
  | AffineSymbolExpr p => (fst acc, Z.max (snd acc) (Z.of_nat p))
  | AffineConstantExpr _ => acc
  | AffineBinaryOpExpr _ l r => maxDimAndSymbol r (maxDimAndSymbol l acc)
  end.

Definition getMaxDimAndSymbol (exprsList : list (list AffineExpr)) : Z * Z :=
  foldl (fun acc exprs => foldl (fun a e => maxDimAndSymbol e a) acc exprs)
        (-1, -1) exprsList.

Definition inferFromExprList (exprsList : list (list AffineExpr))
  : list AffineMap :=
  let '(maxDim, maxSym) := getMaxDimAndSymbol exprsList in
  map (fun exprs => {| numDims := Z.to_nat (maxDim + 1);
                       numSymbols := Z.to_nat (maxSym + 1);
                       results := exprs |}) exprsList.

End Affine.

(** ** Structured (linalg) operations *)
Module Linalg.
Import Mlir Affine.

Inductive IteratorType := parallel | reduction.

#[global] Instance IteratorType_eq_dec : EqDecision IteratorType.
Proof. solve_decision. Defined.

Definition isParallelIterator (t : IteratorType) : bool :=
  bool_decide (t = parallel).
Definition isReductionIterator (t : IteratorType) : bool :=
  bool_decide (t = reduction).

(** A structured operation: the operation itself, its iterator types, one
    indexing map per operand, and its region.  A [linalg.generic] declares
    exactly one region. *)
Record LinalgOp := {
  operation : Operation;
  iteratorTypes : list IteratorType;
  indexingMaps : list AffineMap;
  region : Region
}.

Definition getNumRegions (_ : LinalgOp) : nat := 1.
Definition getIteratorTypesArray (op : LinalgOp) := iteratorTypes op.
Definition getIndexingMapsArray (op : LinalgOp) := indexingMaps op.
Definition getNumLoops (op : LinalgOp) : nat := length (iteratorTypes op).
Definition getNumParallelLoops (op : LinalgOp) : nat :=
  length (filter (fun t => t = parallel) (iteratorTypes op)).
Definition getDpsInputs (op : LinalgOp) := getInputs (operation op).
Definition getDpsInits (op : LinalgOp) := getInits (operation op).
Definition getNumDpsInputs (op : LinalgOp) : nat := length (getDpsInputs op).
Definition getNumDpsInits (op : LinalgOp) : nat := length (getDpsInits op).

Definition isScalar (v : Value) : bool := negb (isShapedType (getType v)).

(** The shapes of all operands, one after the other; a scalar operand
    contributes nothing. *)
Definition getStaticShape (op : LinalgOp) : list Z :=
  concat (map (fun v => default [] (getShape (getType v)))
              (getOperands (operation op))).

Definition hasDynamicShape (op : LinalgOp) : bool :=
  existsb isDynamic (getStaticShape op).

Definition hasTensorSemantics (op : LinalgOp) : bool :=
  forallb (fun v => isScalar v ||
                    match getType v with RankedTensorType _ => true
                                    | _ => false end)
          (getOperands (operation op)).

Definition hasBufferSemantics (op : LinalgOp) : bool :=
  bool_decide (length (getResultTypes (operation op)) = 0%nat) &&
  forallb (fun v => isScalar v ||
                    match getType v with MemRefType _ => true
                                    | _ => false end)
          (getOperands (operation op)).

(** [getMatchingIndexingMap] of the operand at position [i]. *)
Definition getMatchingIndexingMap (op : LinalgOp) (i : nat)
  : option AffineMap := indexingMaps op !! i.

(** What the sources ask of the surrounding IR and of the linalg library
    without this repository defining it: [linalg::isElementwise], and the
    users of an operation's results in the order [user_begin()] ..
    [user_end()] visits them. *)
Class IRQueries := {
  isElementwise : LinalgOp -> bool;
  getUsers : Operation -> list Operation
}.

End Linalg.

(** ** lib/TPP/Dialect/Tpp/TppUtils.cpp *)
Module TppUtils.
Import Mlir Affine Linalg.

(** [isChainOfUnaryOpsFrom]: the loop walks from [v] up the single operands
    of the defining operations; it ends because a value's definition
    precedes it. *)
Fixpoint isChainOfUnaryOpsFrom (v from : Value) {struct v} : bool :=
  if valueEq v from then true
  else match v with
       | BlockArgument _ _ _ => false
       | OpResult (mkOperation _ _ [x] _ _ _) _ => isChainOfUnaryOpsFrom x from
       | OpResult _ _ => false
       end.

(** The walk of [getSingleOpOfType]: [res] is the instance found so far; a
    second instance resets it and interrupts the walk. *)
Fixpoint getSingleOpLoop (isOpType : OpName -> bool) (ops : list Operation)
    (res : option Operation) : option Operation :=
  match ops with
  | [] => res
  | op :: rest =>
      if isOpType (getName op) then
        match res with
        | Some _ => None
        | None => getSingleOpLoop isOpType rest (Some op)
        end
      else getSingleOpLoop isOpType rest res
  end.

Definition getSingleOpOfType (isOpType : OpName -> bool) (block : Block)
  : option Operation :=
  getSingleOpLoop isOpType (walk block) None.

Definition isaAddF (n : OpName) : bool :=
  match n with ArithAddFOp => true | _ => false end.
Definition isaMulF (n : OpName) : bool :=
  match n with ArithMulFOp => true | _ => false end.
Definition isaAddI (n : OpName) : bool :=
  match n with ArithAddIOp => true | _ => false end.
Definition isaMulI (n : OpName) : bool :=
  match n with ArithMulIOp => true | _ => false end.
Definition isaMaxF (n : OpName) : bool :=
  match n with ArithMaxFOp => true | _ => false end.
Definition isaYield (n : OpName) : bool :=
  match n with LinalgYieldOp => true | _ => false end.
Definition isaGeneric (n : OpName) : bool :=
  match n with LinalgGenericOp => true | _ => false end.

(** [isAddMul<AddOpType, MulOpType>].  The terminator is the last operation
    of the block; the add and the mul are binary operations. *)
Definition isAddMul (isAdd isMul : OpName -> bool) (block : Block) : bool :=
  if negb (getNumArguments block =? 3)%nat then false
  else match last (blockOps block) with
  | None => false
  | Some yieldOp =>
    match getOperands yieldOp with
    | [res] =>
      match getSingleOpOfType isAdd block, getSingleOpOfType isMul block with
      | Some addOp, Some mulOp =>
        match getOperands mulOp, getOperands addOp with
        | a :: b :: _, c1 :: c2 :: _ =>
          let argA := getArgument block 0 in
          let argB := getArgument block 1 in
          let mul := OpResult mulOp 0 in
          let argC := getArgument block 2 in
          let add := OpResult addOp 0 in
          let un := isChainOfUnaryOpsFrom in
          let success := un res add in
          let success := success ||
            ((un c1 argC && un c2 mul) || (un c1 mul && un c2 argC)) in
          let success := success ||
            ((un a argA && un b argB) || (un a argB && un b argA)) in
          success
        | _, _ => false
        end
      | _, _ => false
      end
    | _ => false
    end
  end.

Definition hasMatmulBody (linalgOp : LinalgOp) : bool :=
  if negb (getNumRegions linalgOp =? 1)%nat then false
  else match region linalgOp with
       | [front] =>
           let isFloat := isAddMul isaAddF isaMulF front in
           let isInt := isAddMul isaAddI isaMulI front in
           isFloat || isInt
       | _ => false
       end.

Definition hasStaticShape (linalgOp : LinalgOp) : bool :=
  negb (hasDynamicShape linalgOp).

Definition hasOnlyYieldOp (r : Region) : bool :=
  match r with
  | [front] => (length (blockOps front) =? 1)%nat
  | _ => false
  end.

Definition hasCopySemantics (linalgOp : LinalgOp) : bool :=
  if negb (getNumParallelLoops linalgOp =? getNumLoops linalgOp)%nat then false
  else if negb (getNumOperands (operation linalgOp) =? 2)%nat
          || negb (getNumDpsInputs linalgOp =? 1)%nat then false
  else hasOnlyYieldOp (region linalgOp).

Section WithIR.
Context `{IRQueries}.

(** [getPrevUser]: the user that follows [currentUser] in the user list of
    [op], or null. *)
Fixpoint prevUserLoop (users : list Operation) (currentUser : Operation)
  : option Operation :=
  match users with
  | [] => None
  | u :: rest => if opEq u currentUser then head rest
                 else prevUserLoop rest currentUser
  end.

Definition getPrevUser (op currentUser : option Operation)
  : option Operation :=
  match op, currentUser with
  | Some o, Some c => prevUserLoop (getUsers o) c
  | _, _ => None
  end.

(** [m_AnyZeroFloat] and [m_Zero] on the defining constant. *)
Definition isValConstZero (val : Value) : bool :=
  match getDefiningOp val with
  | Some op =>
      match getName op with
      | ArithConstantOp (FloatAttr z) | ArithConstantOp (SplatFloatAttr z) => z
      | ArithConstantOp (IntegerAttr c)
      | ArithConstantOp (SplatIntegerAttr c) => c =? 0
      | _ => false
      end
  | None => false
  end.

(** [a || b] of two calls that may not return: [b] is called only when [a]
    returned false. *)
Definition orElse (a : option bool) (b : unit -> option bool) : option bool :=
  match a with
  | Some true => Some true
  | Some false => b tt
  | None => None
  end.

(** [isZeroTensor] on an operation pointer; [isZeroTensor] on a value is
    this function at the defining operation.  The recursion follows use lists, so the model
    counts the calls: [None] is a call chain longer than [fuel]. *)
Fixpoint isZeroTensorOp (fuel : nat) (defOp : option Operation)
  : option bool :=
  match defOp with
  | None => Some false
  | Some op =>
    match fuel with
    | O => None
    | S fuel =>
      let viaSource (src : Value) :=
        orElse (isZeroTensorOp fuel (getDefiningOp src))
               (fun _ => isZeroTensorOp fuel
                           (getPrevUser (getDefiningOp src) (Some op))) in
      match getName op with
      | LinalgFillOp =>
          match getInputs op with
          | [input] => Some (isValConstZero input)
          | _ => Some false
          end
      | LinalgCopyOp =>
          match getInputs op with
          | [input] => viaSource input
          | _ => Some false
          end
      | MemrefCopyOp | MemrefSubViewOp | TensorCastOp
      | TensorExtractSliceOp =>
          match getOperands op with
          | source :: _ => viaSource source
          | [] => Some false
          end
      | _ => Some false
      end
    end
  end.

Definition isZeroTensor (fuel : nat) (v : Value) : option bool :=
  isZeroTensorOp fuel (getDefiningOp v).

(** The inner loop of [hasMaxfZeroOp] over the region arguments. *)
Fixpoint maxfUsesZeroOperand (fuel : nat) (genOp : LinalgOp)
    (lhs rhs : Value) (args : list Value) : option bool :=
  match args with
  | [] => Some false
  | arg :: rest =>
      if negb (valueEq arg lhs) && negb (valueEq arg rhs)
      then maxfUsesZeroOperand fuel genOp lhs rhs rest
      else
        let next := fun _ : unit =>
                      maxfUsesZeroOperand fuel genOp lhs rhs rest in
        match arg with
        | BlockArgument _ n _ =>
            match getOperands (operation genOp) !! n with
            | Some operand =>
                orElse
                  (orElse (isZeroTensor fuel operand)
                     (fun _ => isZeroTensorOp fuel
                                 (getPrevUser (getDefiningOp operand)
                                    (Some (operation genOp)))))
                  next
            | None => next tt
            end
        | _ => next tt
        end
  end.

(** The loop of [hasMaxfZeroOp] over the operations of the body. *)
Fixpoint hasMaxfZeroLoop (fuel : nat) (genOp : LinalgOp)
    (args : list Value) (ops : list Operation) : option bool :=
  match ops with
  | [] => Some false
  | op :: rest =>
      let next := fun _ : unit => hasMaxfZeroLoop fuel genOp args rest in
      if isaMaxF (getName op) then
        match getOperands op with
        | lhs :: rhs :: _ =>
            orElse
              (orElse
                 (orElse (Some (isValConstZero rhs))
                    (fun _ => orElse (isZeroTensor fuel lhs)
                                (fun _ => isZeroTensor fuel rhs)))
                 (fun _ => maxfUsesZeroOperand fuel genOp lhs rhs args))
              next
        | _ => next tt
        end
      else next tt
  end.

Definition hasMaxfZeroOp (fuel : nat) (linalgOp : LinalgOp) : option bool :=
  if negb (isaGeneric (getName (operation linalgOp))) then Some false
  else match region linalgOp with
       | [front] =>
           hasMaxfZeroLoop fuel linalgOp (getArguments front) (blockOps front)
       | _ => Some false
       end.

(** [hasOnlyScalarElementwiseOp<OP>]. *)
Definition hasOnlyScalarElementwiseOp (isOP : OpName -> bool) (r : Region)
  : bool :=
  match r with
  | [front] =>
      if negb (length (blockOps front) =? 2)%nat then false
      else forallb
             (fun op => negb (negb (isOP (getName op) || isaYield (getName op))
                              || existsb (fun ty => negb (isIntOrFloat ty))
                                         (getResultTypes op)))
             (blockOps front)
  | _ => false
  end.

Definition hasOneInputOneOutput (linalgOp : LinalgOp) : bool :=
  (getNumDpsInputs linalgOp =? 1)%nat && (getNumDpsInits linalgOp =? 1)%nat.

(** The indexing maps [isTppMatmul] compares with: [(i, k)], [(k, j)],
    [(i, j)] with [i], [j], [k] bound to d0, d1, d2. *)
Definition matmulMaps : list AffineMap :=
  let i := AffineDimExpr 0 in
  let j := AffineDimExpr 1 in
  let k := AffineDimExpr 2 in
  inferFromExprList [[i; k]; [k; j]; [i; j]].

Definition isTppMatmul (linalgOp : LinalgOp) : bool :=
  let iteratorTypes := getIteratorTypesArray linalgOp in
  if negb (length iteratorTypes =? 3)%nat then false
  else match iteratorTypes with
  | [t0; t1; t2] =>
      if negb (isParallelIterator t0 && isParallelIterator t1 &&
               isReductionIterator t2) then false
      else if negb (bool_decide (getIndexingMapsArray linalgOp = matmulMaps))
      then false
      else hasMatmulBody linalgOp
  | _ => false
  end.

Definition canMapToTppAdd (linalgOp : LinalgOp) : bool :=
  if negb (isElementwise linalgOp) then false
  else if negb (hasStaticShape linalgOp)
          || negb (hasOneInputOneOutput linalgOp) then false
  else hasOnlyScalarElementwiseOp isaAddF (region linalgOp).

Definition isTppAdd (linalgOp : LinalgOp) : bool :=
  if negb (getNumLoops linalgOp =? getNumParallelLoops linalgOp)%nat
  then false
  else if negb (getNumDpsInputs linalgOp =? 1)%nat
          || negb (getNumDpsInits linalgOp =? 1)%nat then false
  else if hasTensorSemantics linalgOp then false
  else hasOnlyScalarElementwiseOp isaAddF (region linalgOp).

(** [canMapToTppRelu]; it returns when its call of [hasMaxfZeroOp] does. *)
Definition canMapToTppRelu (fuel : nat) (linalgOp : LinalgOp)
  : option bool :=
  if negb (isElementwise linalgOp) then Some false
  else if negb (hasStaticShape linalgOp) then Some false
  else match hasMaxfZeroOp fuel linalgOp with
       | None => None
       | Some false => Some false
       | Some true =>
           Some (hasOnlyScalarElementwiseOp isaMaxF (region linalgOp))
       end.

Definition isTppRelu (linalgOp : LinalgOp) : bool :=
  if negb (getNumLoops linalgOp =? getNumParallelLoops linalgOp)%nat
  then false
  else if negb (getNumDpsInputs linalgOp =? 0)%nat
          || negb (getNumDpsInits linalgOp =? 1)%nat then false
  else if hasTensorSemantics linalgOp then false
  else hasOnlyScalarElementwiseOp isaMaxF (region linalgOp).

Definition canMapToTppIdentity (linalgOp : LinalgOp) : bool :=
  if negb (isElementwise linalgOp) then false
  else hasStaticShape linalgOp && hasCopySemantics linalgOp.

Definition isTppIdentity (linalgOp : LinalgOp) : bool :=
  if negb (getNumLoops linalgOp =? getNumParallelLoops linalgOp)%nat
  then false
  else if negb (getNumDpsInputs linalgOp =? 1)%nat
          || negb (getNumDpsInits linalgOp =? 1)%nat then false
  else if hasTensorSemantics linalgOp then false
  else hasCopySemantics linalgOp.

End WithIR.

(** *** The matmul body as the comment above [isAddMul] describes it

    [res] is a permutation of [u5(u1(c) + u2(u3(a) * u4(b)))]: the yielded
    value is a chain of unary operations from the add, one operand of the
    add is a chain from the third block argument and the other from the
    mul, and one operand of the mul is a chain from the first block
    argument and the other from the second.  All three must hold. *)
Definition isAddMulSkeleton (isAdd isMul : OpName -> bool) (block : Block)
  : bool :=
  (getNumArguments block =? 3)%nat &&
  match last (blockOps block) with
  | None => false
  | Some yieldOp =>
    match getOperands yieldOp with
    | [res] =>
      match getSingleOpOfType isAdd block, getSingleOpOfType isMul block with
      | Some addOp, Some mulOp =>
        match getOperands mulOp, getOperands addOp with
        | a :: b :: _, c1 :: c2 :: _ =>
          let argA := getArgument block 0 in
          let argB := getArgument block 1 in
          let argC := getArgument block 2 in
          let mul := OpResult mulOp 0 in
          let add := OpResult addOp 0 in
          let un := isChainOfUnaryOpsFrom in
          un res add
          && ((un c1 argC && un c2 mul) || (un c1 mul && un c2 argC))
          && ((un a argA && un b argB) || (un a argB && un b argA))
        | _, _ => false
        end
      | _, _ => false
      end
    | _ => false
    end
  end.

Definition isMatmulSkeletonBody (linalgOp : LinalgOp) : bool :=
  match region linalgOp with
  | [front] => isAddMulSkeleton isaAddF isaMulF front
               || isAddMulSkeleton isaAddI isaMulI front
  | _ => false
  end.

(** *** Notions the statements about this file use *)

(** The operations [isZeroTensor] looks through, with the value it goes on
    from: the single input of a [linalg.copy], the source of the others. *)
Definition transparentSource (op : Operation) : option Value :=
  match getName op with
  | LinalgCopyOp =>
      match getInputs op with [input] => Some input | _ => None end
  | MemrefCopyOp | MemrefSubViewOp | TensorCastOp | TensorExtractSliceOp =>
      head (getOperands op)
  | _ => None
  end.

(** The operations at which the chase stops with false. *)
Definition outsideZeroChase (n : OpName) : bool :=
  match n with
  | LinalgFillOp | LinalgCopyOp | MemrefCopyOp | MemrefSubViewOp
  | TensorCastOp | TensorExtractSliceOp => false
  | _ => true
  end.

(** The operations of the body when the region is a single block. *)
Definition bodyOps (linalgOp : LinalgOp) : option (list Operation) :=
  match region linalgOp with
  | [front] => Some (blockOps front)
  | _ => None
  end.

(** An operation that is an [OP] or the yield and whose results are all of
    integer or float type. *)
Definition isScalarOpOrYield (isOP : OpName -> bool) (op : Operation)
  : bool :=
  (isOP (getName op) || isaYield (getName op))
  && forallb isIntOrFloat (getResultTypes op).

(** The body is exactly the expected pair. *)
Definition isExpectedPair (isOP : OpName -> bool) (linalgOp : LinalgOp)
  : Prop :=
  exists a b, bodyOps linalgOp = Some [a; b]
              /\ isScalarOpOrYield isOP a = true
              /\ isScalarOpOrYield isOP b = true.

(** *** Concrete operations *)

Definition f32 : MType := FloatType 32.

(** The body block of the examples has identity 1; its arguments are the
    scalars read from the operands. *)
Definition bodyArg (i : nat) : Value := BlockArgument 1 i f32.

Definition binaryOp (id : nat) (name : OpName) (lhs rhs : Value)
  : Operation := mkOperation id name [lhs; rhs] 0 [f32] [].

Definition yieldOp (id : nat) (v : Value) : Operation :=
  mkOperation id LinalgYieldOp [v] 0 [] [].

(** A function argument of type [memref<d0 x d1 x f32>]. *)
Definition memrefArg (argNumber : nat) (dim0 dim1 : Z) : Value :=
  BlockArgument 0 argNumber (MemRefType [dim0; dim1]).

(** A [linalg.generic] with the iterators and maps of a matmul whose body
    yields [c + c] next to an unused [a * a]:
<<
    ^bb0(%a: f32, %b: f32, %c: f32):
      %0 = arith.mulf %a, %a : f32
      %1 = arith.addf %c, %c : f32
      linalg.yield %1 : f32
>> *)
Definition mulOfA : Operation := binaryOp 10 ArithMulFOp (bodyArg 0) (bodyArg 0).
Definition addOfC : Operation := binaryOp 11 ArithAddFOp (bodyArg 2) (bodyArg 2).

Definition doublingBody : Block := {|
  blockId := 1;
  blockArgTypes := [f32; f32; f32];
  blockOps := [mulOfA; addOfC; yieldOp 12 (OpResult addOfC 0)]
|}.

Definition doublingGeneric : LinalgOp := {|
  operation := mkOperation 20 LinalgGenericOp
                 [memrefArg 0 4 8; memrefArg 1 8 16; memrefArg 2 4 16]
                 2 [] [];
  iteratorTypes := [parallel; parallel; reduction];
  indexingMaps := matmulMaps;
  region := [doublingBody]
|}.

(** Element-wise generics on buffers whose first extent is dynamic
    ([memref<?x8xf32>]): an addition, a relu, a copy, and a matmul. *)
Definition dynArg (argNumber : nat) : Value := memrefArg argNumber kDynamic 8.

Definition elementwiseGeneric (operands : list Value) (numInputs : nat)
    (argTypes : list MType) (ops : list Operation) : LinalgOp := {|
  operation := mkOperation 20 LinalgGenericOp operands numInputs [] [];
  iteratorTypes := [parallel; parallel];
  indexingMaps :=
    replicate (length operands)
      {| numDims := 2; numSymbols := 0;
         results := [AffineDimExpr 0; AffineDimExpr 1] |};
  region := [{| blockId := 1; blockArgTypes := argTypes; blockOps := ops |}]
|}.

Definition addfOp : Operation := binaryOp 10 ArithAddFOp (bodyArg 0) (bodyArg 1).
Definition dynamicAdd : LinalgOp :=
  elementwiseGeneric [dynArg 0; dynArg 1] 1 [f32; f32]
    [addfOp; yieldOp 11 (OpResult addfOp 0)].

Definition zeroConstant : Operation :=
  mkOperation 5 (ArithConstantOp (FloatAttr true)) [] 0 [f32] [].
Definition maxfOp : Operation :=
  binaryOp 10 ArithMaxFOp (bodyArg 0) (OpResult zeroConstant 0).
Definition dynamicRelu : LinalgOp :=
  elementwiseGeneric [dynArg 0] 0 [f32]
    [maxfOp; yieldOp 11 (OpResult maxfOp 0)].

Definition dynamicIdentity : LinalgOp :=
  elementwiseGeneric [dynArg 0; dynArg 1] 1 [f32; f32]
    [yieldOp 11 (bodyArg 0)].

Definition mulfOp : Operation := binaryOp 10 ArithMulFOp (bodyArg 0) (bodyArg 1).
Definition maccOp : Operation :=
  binaryOp 11 ArithAddFOp (bodyArg 2) (OpResult mulfOp 0).
Definition dynamicMatmul : LinalgOp := {|
  operation := mkOperation 20 LinalgGenericOp
                 [memrefArg 0 kDynamic 8; memrefArg 1 8 16;
                  memrefArg 2 kDynamic 16] 2 [] [];
  iteratorTypes := [parallel; parallel; reduction];
  indexingMaps := matmulMaps;
  region := [{| blockId := 1; blockArgTypes := [f32; f32; f32];
                blockOps := [mulfOp; maccOp;
                             yieldOp 12 (OpResult maccOp 0)] |}]
|}.

(** A zero-filled tensor and a slice of it:
<<
    %cst = arith.constant 0.0 : f32
    %e = tensor.empty() : tensor<4x8xf32>
    %f = linalg.fill ins(%cst : f32) outs(%e : tensor<4x8xf32>)
    %s = tensor.extract_slice %f ...
>> *)
Definition emptyTensor : Operation :=
  mkOperation 6 (OtherOp "tensor.empty") [] 0 [RankedTensorType [4; 8]] [].
Definition zeroFill : Operation :=
  mkOperation 7 LinalgFillOp
    [OpResult zeroConstant 0; OpResult emptyTensor 0] 1
    [RankedTensorType [4; 8]] [].
Definition sliceOfZeroFill : Operation :=
  mkOperation 8 TensorExtractSliceOp [OpResult zeroFill 0] 0
    [RankedTensorType [2; 8]] [].

(** An operation has a dynamic dimension extent when the shape of one of
    its operands holds [kDynamic]. *)
Definition hasDynamicExtent (linalgOp : LinalgOp) : Prop :=
  exists v shape, v ∈ getOperands (operation linalgOp)
                  /\ getShape (getType v) = Some shape
                  /\ kDynamic ∈ shape.

(** An addition on static 4x8 buffers, and the same with a second
    addition fused into the body. *)
Definition staticAdd : LinalgOp :=
  elementwiseGeneric [memrefArg 0 4 8; memrefArg 1 4 8] 1 [f32; f32]
    [addfOp; yieldOp 11 (OpResult addfOp 0)].

Definition addfAgain : Operation :=
  binaryOp 12 ArithAddFOp (OpResult addfOp 0) (bodyArg 0).
Definition fusedAdd : LinalgOp :=
  elementwiseGeneric [memrefArg 0 4 8; memrefArg 1 4 8] 1 [f32; f32]
    [addfOp; addfAgain; yieldOp 11 (OpResult addfAgain 0)].

(** Queries for a module with nothing but the operation at hand: every
    generic is taken to be element-wise and no operation has users. *)
Definition isolatedIR : IRQueries := {|
  isElementwise := fun _ => true;
  getUsers := fun _ => []
|}.

End TppUtils.

(** ** lib/TPP/ConvertLinalgToXsmm.cpp *)
Module LinalgToXsmm.
Import Mlir Affine Linalg.

(** A call either trips an [assert] (or reads past the end of a vector) or
    returns.  [FailureOr<T>] is [option T]. *)
Inductive Outcome (A : Type) :=
| Asserts
| Returns (a : A).
Arguments Asserts {A}.
Arguments Returns {A} a.

#[global] Instance Outcome_ret : MRet Outcome := fun A a => Returns a.
#[global] Instance Outcome_bind : MBind Outcome := fun A B f x =>
  match x with
  | Asserts => Asserts
  | Returns a => f a
  end.

Inductive LogicalResult := success | failure.

(** The enumerations of the xsmm dialect the pass refers to. *)
Inductive UnaryKind := ZERO | TRANSPOSE | RELU.
Module UnaryFlags.
Inductive t := NONE | BCAST_ROW | BCAST_COL | BCAST_SCALAR.
End UnaryFlags.
Module BroadCastType.
Inductive t := NONE | SCALAR | ROW | COL.
End BroadCastType.
Inductive DataType := F32 | BF16.

(** What the pass calls without this file defining it:
    [mlir::utils::getStaticStrides], the three matchers of
    [structured_match::utils], each giving the operands it identified when
    it matches, and [xsmm::utils::getDataType]. *)
Class XsmmQueries := {
  getStaticStrides : Value -> option (list Z);
  isTwoDFillOpWithZeros : LinalgOp -> option (list Value);
  isTwoDTransposeOp : LinalgOp -> option (list Value);
  isTwoDReluOp : LinalgOp -> option (list Value);
  getDataType : MType -> DataType
}.

(** [unsigned m, n; int64_t ldi, ldo]. *)
Record UnaryInfo := {
  m : Z;
  n : Z;
  ldi : Z;
  ldo : Z
}.

(** Conversion of an [int64_t] to [unsigned]. *)
Definition toUnsigned (x : Z) : Z := x mod 2 ^ 32.

(** [getRank]: asserts that the shaped type is ranked. *)
Definition getRank (t : MType) : Outcome nat :=
  match getShape t with
  | Some s => Returns (length s)
  | None => Asserts
  end.

(** [back()] and [front()] of a vector; undefined on an empty one. *)
Definition back (l : list Z) : Outcome Z :=
  match last l with Some x => Returns x | None => Asserts end.
Definition front (l : list Z) : Outcome Z :=
  match head l with Some x => Returns x | None => Asserts end.

Section WithQueries.
Context `{XsmmQueries}.

(** The test [failed(strides) || strides->back() != 1] followed by the read
    of [strides->front()]: [None] is the early [return failure()]. *)
Definition unitStrideLeadingDim (v : Value) : Outcome (option Z) :=
  match getStaticStrides v with
  | None => Returns None
  | Some strides =>
      b ← back strides;
      if negb (b =? 1) then Returns None
      else f ← front strides; Returns (Some f)
  end.

Definition getUnaryInfo (input output : Value) : Outcome (option UnaryInfo) :=
  let outputType := getType output in
  if negb (isShapedType outputType) then Asserts
  else
    rank ← getRank outputType;
    if negb (rank =? 2)%nat then Returns None
    else
      let shape := default [] (getShape outputType) in
      let m' := toUnsigned (default 0 (shape !! 0%nat)) in
      let n' := toUnsigned (default 0 (shape !! 1%nat)) in
      ldi' ← (if isShapedType (getType input)
              then unitStrideLeadingDim input
              else Returns (Some 1));
      match ldi' with
      | None => Returns None
      | Some ldi' =>
          ldo' ← unitStrideLeadingDim output;
          match ldo' with
          | None => Returns None
          | Some ldo' =>
              Returns (Some {| m := m'; n := n'; ldi := ldi'; ldo := ldo' |})
          end
      end.

(** The operations the rewriter creates. *)
Inductive XsmmOp :=
| UnaryDispatchOp (kind : UnaryKind) (dims : list Z)
    (flags : list UnaryFlags.t) (dtype : DataType)
| UnaryOp (dtype : DataType) (kind : UnaryKind) (operands : list Value).

(** What a pattern did to the IR, in order. *)
Inductive RewriteAction :=
| CreateOp (opId : nat) (op : XsmmOp)
| ReplaceOpWithNewOp (old : Operation) (opId : nat) (new : XsmmOp).

(** The rewriter: the identity of the next operation it creates and the
    log of its actions. *)
Record Rewriter := {
  nextOpId : nat;
  actions : list RewriteAction
}.

(** The [i64] result of a dispatch created with identity [id]. *)
Definition dispatchResult (id : nat) : Value :=
  OpResult (mkOperation id (OtherOp "xsmm.unary.dispatch") [] 0
              [IntegerType 64] []) 0.

Definition replaceOpWithUnary (rewriter : Rewriter) (linalgOp : LinalgOp)
    (unaryInfo : UnaryInfo) (flags : list UnaryFlags.t) (kind : UnaryKind)
  : Outcome Rewriter :=
  let dims := [m unaryInfo; n unaryInfo; ldi unaryInfo; ldo unaryInfo] in
  match getDpsInits linalgOp with
  | [] => Asserts
  | init :: _ =>
      let dtype := getDataType (getType init) in
      let id := nextOpId rewriter in
      let dispatched := dispatchResult id in
      let invokeOperands := dispatched :: getOperands (operation linalgOp) in
      Returns {| nextOpId := S (S id);
                 actions := actions rewriter ++
                   [CreateOp id (UnaryDispatchOp kind dims flags dtype);
                    ReplaceOpWithNewOp (operation linalgOp) (S id)
                      (UnaryOp dtype kind invokeOperands)] |}
  end.

(** [ConvertFillOpToUnaryZero::matchAndRewrite]. *)
Definition ConvertFillOpToUnaryZero (fillOp : LinalgOp) (rewriter : Rewriter)
  : Outcome (LogicalResult * Rewriter) :=
  match isTwoDFillOpWithZeros fillOp with
  | Some [operand0; operand1] =>
      unaryInfo ← getUnaryInfo operand0 operand1;
      match unaryInfo with
      | None => Returns (failure, rewriter)
      | Some unaryInfo =>
          let flags := [UnaryFlags.BCAST_SCALAR] in
          let kind := ZERO in
          rewriter' ← replaceOpWithUnary rewriter fillOp unaryInfo flags kind;
          Returns (success, rewriter')
      end
  | _ => Returns (failure, rewriter)
  end.

(** [ConvertTransposeOpToUnaryTranspose::matchAndRewrite]. *)
Definition ConvertTransposeOpToUnaryTranspose (transposeOp : LinalgOp)
    (rewriter : Rewriter) : Outcome (LogicalResult * Rewriter) :=
  match isTwoDTransposeOp transposeOp with
  | Some [operand0; operand1] =>
      unaryInfo ← getUnaryInfo operand0 operand1;
      match unaryInfo with
      | None => Returns (failure, rewriter)
      | Some unaryInfo =>
          (* std::swap of m and n *)
          let unaryInfo := {| m := n unaryInfo; n := m unaryInfo;
                              ldi := ldi unaryInfo; ldo := ldo unaryInfo |} in
          let flags := [UnaryFlags.NONE] in
          let kind := TRANSPOSE in
          rewriter' ← replaceOpWithUnary rewriter transposeOp unaryInfo
                        flags kind;
          Returns (success, rewriter')
      end
  | _ => Returns (failure, rewriter)
  end.

(** [getOperandFromValue]: the position of the first operand that is
    [val]; the C++ asserts that there is one. *)
Fixpoint findOperand (operands : list Value) (val : Value) (pos : nat)
  : option nat :=
  match operands with
  | [] => None
  | operand :: rest => if valueEq operand val then Some pos
                       else findOperand rest val (S pos)
  end.

Definition getOperandFromValue (genericOp : LinalgOp) (val : Value)
  : Outcome nat :=
  let allOperands := getDpsInputs genericOp ++ getDpsInits genericOp in
  match findOperand allOperands val 0 with
  | Some pos => Returns pos
  | None => Asserts
  end.


(** The loop of [getBroadCastFromMap] that extends the map with leading
    zeros; the guard before it bounds the number of iterations by the
    number of inputs. *)
Fixpoint extendWithLeadingZeros (iterations : nat) (map : AffineMap)
  : AffineMap :=
  match iterations with
  | O => map
  | S iterations =>
      if negb (getNumResults map =? getNumInputs map)%nat
      then extendWithLeadingZeros iterations
             (insertResult map (getAffineConstantExpr 0) 0)
      else map
  end.

Definition getBroadCastFromMap (map : AffineMap) : option BroadCastType.t :=
  if (getNumInputs map <? getNumResults map)%nat
     || negb (getNumInputs map =? 2)%nat
     || negb (getNumSymbols map =? 0)%nat then None
  else if (getNumResults map =? 0)%nat then Some BroadCastType.SCALAR
  else
    let map := extendWithLeadingZeros (getNumInputs map) map in
    if negb (isProjectedPermutation map true) then None
    else match isMinorIdentityWithBroadcasting map with
         | None => None
         | Some broadcastedDims =>
             match broadcastedDims with
             | [] => Some BroadCastType.NONE
             | [broadcastedDim] =>
                 if (broadcastedDim =? 0)%nat then Some BroadCastType.COL
                 else Some BroadCastType.ROW
             | _ => None
             end
         end.

Definition getBroadCastUnaryFlagFromMap (map : AffineMap)
  : option UnaryFlags.t :=
  match getBroadCastFromMap map with
  | None => None
  | Some broadCastType =>
      match broadCastType with
      | BroadCastType.SCALAR => Some UnaryFlags.BCAST_SCALAR
      | BroadCastType.ROW => Some UnaryFlags.BCAST_ROW
      | BroadCastType.COL => Some UnaryFlags.BCAST_COL
      | _ => Some UnaryFlags.NONE
      end
  end.

(** [ConvertGenericToUnaryRelu::matchAndRewrite]. *)
Definition ConvertGenericToUnaryRelu (genericOp : LinalgOp)
    (rewriter : Rewriter) : Outcome (LogicalResult * Rewriter) :=
  if negb (hasBufferSemantics genericOp) then Returns (failure, rewriter)
  else match isTwoDReluOp genericOp with
  | Some [operand0; operand1] =>
      unaryInfo ← getUnaryInfo operand0 operand1;
      match unaryInfo with
      | None => Returns (failure, rewriter)
      | Some unaryInfo =>
          inputOperand ← getOperandFromValue genericOp operand0;
          match getMatchingIndexingMap genericOp inputOperand with
          | None => Asserts
          | Some map =>
              match getBroadCastUnaryFlagFromMap map with
              | None => Returns (failure, rewriter)
              | Some broadCastFlag =>
                  let flags := [broadCastFlag] in
                  let kind := RELU in
                  rewriter' ← replaceOpWithUnary rewriter genericOp
                                unaryInfo flags kind;
                  Returns (success, rewriter')
              end
          end
      end
  | _ => Returns (failure, rewriter)
  end.

End WithQueries.

(** *** Notions the statements about this file use *)

(** The number of broadcast dimensions of a map over a 2-D iteration
    space: the results missing in front, which the extension fills with
    zeros, and the results that are the constant 0. *)
Definition isZeroExpr (e : AffineExpr) : bool :=
  match e with AffineConstantExpr c => c =? 0 | _ => false end.

Definition numBroadcastDims (map : AffineMap) : nat :=
  (getNumInputs map - getNumResults map)
  + length (filter (fun e => isZeroExpr e = true) (results map)).

(** [v] has static strides, the innermost is 1 and the leading (first)
    one is [leading]. *)
Definition hasUnitInnermostStride `{XsmmQueries} (v : Value) (leading : Z)
  : Prop :=
  exists strides, getStaticStrides v = Some strides
                  /\ last strides = Some 1 /\ head strides = Some leading.

(** The input side of the descriptor: the leading stride of a shaped
    input with unit innermost stride, 1 for an input that is not shaped. *)
Definition inputLeadingDim `{XsmmQueries} (input : Value) (leading : Z)
  : Prop :=
  if isShapedType (getType input)
  then hasUnitInnermostStride input leading
  else leading = 1.

(** The ways the preconditions of [getUnaryInfo] fail: the output is not of
    rank 2, or an operand whose strides are examined has no static strides
    or an innermost stride other than 1.  The strides of the output are
    examined once those of a shaped input have been read. *)
Definition rankIsNotTwo (output : Value) : Prop :=
  exists shape, getShape (getType output) = Some shape
                /\ length shape <> 2%nat.

Definition lacksUnitInnermostStride `{XsmmQueries} (v : Value) : Prop :=
  getStaticStrides v = None
  \/ exists strides b, getStaticStrides v = Some strides
                       /\ last strides = Some b /\ b <> 1.

Definition unaryPreconditionFails `{XsmmQueries} (input output : Value)
  : Prop :=
  rankIsNotTwo output
  \/ ((exists M N, getShape (getType output) = Some [M; N])
      /\ ((isShapedType (getType input) = true
           /\ lacksUnitInnermostStride input)
          \/ ((isShapedType (getType input) = false
               \/ getStaticStrides input <> Some [])
              /\ lacksUnitInnermostStride output))).

(** A pattern misses when its matcher declines, when the matcher does not
    identify two operands, or when the preconditions of [getUnaryInfo] fail
    on the two operands. *)
Definition patternMisses `{XsmmQueries} (matched : option (list Value))
  : Prop :=
  match matched with
  | Some [input; output] => unaryPreconditionFails input output
  | _ => True
  end.

(** The relu pattern also misses when the indexing map of its input has no
    supported broadcast classification. *)
Definition broadcastMisses `{XsmmQueries} (genericOp : LinalgOp) : Prop :=
  exists input output info pos map,
    isTwoDReluOp genericOp = Some [input; output]
    /\ getUnaryInfo input output = Returns (Some info)
    /\ getOperandFromValue genericOp input = Returns pos
    /\ getMatchingIndexingMap genericOp pos = Some map
    /\ getBroadCastFromMap map = None.

(** The rewriter after a dispatch and its invoke have replaced [linalgOp]. *)
Definition afterUnary `{XsmmQueries} (rewriter : Rewriter)
    (linalgOp : LinalgOp) (init : Value) (kind : UnaryKind) (dims : list Z)
    (flags : list UnaryFlags.t) : Rewriter :=
  let id := nextOpId rewriter in
  let dtype := getDataType (getType init) in
  {| nextOpId := S (S id);
     actions := actions rewriter ++
       [CreateOp id (UnaryDispatchOp kind dims flags dtype);
        ReplaceOpWithNewOp (operation linalgOp) (S id)
          (UnaryOp dtype kind
             (dispatchResult id :: getOperands (operation linalgOp)))] |}.

(** The strides of a memref with the identity layout: the stride of a
    dimension is the product of the extents after it; [None] when one of
    these extents is dynamic. *)
Fixpoint identityStrides (shape : list Z) : option (list Z) :=
  match shape with
  | [] => Some []
  | _ :: rest =>
      if existsb isDynamic rest then None
      else match identityStrides rest with
           | Some strides => Some (foldr Z.mul 1 rest :: strides)
           | None => None
           end
  end.

(** An instance of the queries for memrefs with the identity layout, and
    matchers that give the operands of the operation back. *)
Definition identityLayoutQueries : XsmmQueries := {|
  getStaticStrides := fun v => match getType v with
                               | MemRefType shape => identityStrides shape
                               | _ => None
                               end;
  isTwoDFillOpWithZeros := fun op => Some (getOperands (operation op));
  isTwoDTransposeOp := fun op => Some (getOperands (operation op));
  isTwoDReluOp := fun op => Some (getOperands (operation op));
  getDataType := fun _ => F32
|}.

(** A function argument of type [memref<d0 x d1 x f32>]. *)
Definition memref2D (argNumber : nat) (dim0 dim1 : Z) : Value :=
  BlockArgument 0 argNumber (MemRefType [dim0; dim1]).

(** A structured operation on two buffers, both accessed with the identity
    map. *)
Definition opOnBuffers (name : OpName) (input output : Value) : LinalgOp := {|
  operation := mkOperation 7 name [input; output] 1 [] [];
  iteratorTypes := [parallel; parallel];
  indexingMaps := [{| numDims := 2; numSymbols := 0;
                      results := [AffineDimExpr 0; AffineDimExpr 1] |};
                   {| numDims := 2; numSymbols := 0;
                      results := [AffineDimExpr 0; AffineDimExpr 1] |}];
  region := []
|}.

(** A function argument of type [memref<2x4x8xf32>]. *)
Definition memref3D (argNumber : nat) : Value :=
  BlockArgument 0 argNumber (MemRefType [2; 4; 8]).

Definition emptyRewriter : Rewriter := {| nextOpId := 100; actions := [] |}.

(** The four maps of the comment above [getBroadCastUnaryFlagFromMap]. *)
Definition d0 := AffineDimExpr 0.
Definition d1 := AffineDimExpr 1.
Definition c0 := AffineConstantExpr 0.
Definition map2 (rs : list AffineExpr) : AffineMap :=
  {| numDims := 2; numSymbols := 0; results := rs |}.

End LinalgToXsmm.

(** ** The pack and unpack operations of the LinalgX dialect

    include/TPP/Dialect/LinalgX/LinalgXOps.td declares the operations,
    their arguments and their helpers ([getPackedType], [inferResultType],
    [getDimAndTileMapping], the scalar implementation of the tiling
    interface); the bodies are in LinalgXOps.cpp. *)
Module LinalgX.

(** Modelled from the spec: a dimension extent (section 3), a known
    integer or dynamic. *)
Inductive Extent := Known (n : Z) | Dynamic.

(** Modelled from the spec: a tile size (section 3), a compile-time
    constant or a value known only at run time (the model records the value
    it then has). *)
Inductive TileSize := Constant (t : Z) | Runtime (t : Z).

#[global] Instance Extent_eq_dec : EqDecision Extent.
Proof. solve_decision. Defined.
#[global] Instance TileSize_eq_dec : EqDecision TileSize.
Proof. solve_decision. Defined.

(** The packing descriptor; [outer_dims_perm] is empty when absent (the
    attribute defaults to [{}]). *)
Record PackingDescriptor := {
  inner_dims_pos : list nat;
  inner_tiles : list TileSize;
  outer_dims_perm : list nat
}.

Definition tileValue (t : TileSize) : Z :=
  match t with Constant t | Runtime t => t end.

Definition isDynamicExtent (e : Extent) : bool :=
  match e with Dynamic => true | Known _ => false end.
Definition isRuntimeTile (t : TileSize) : bool :=
  match t with Runtime _ => true | Constant _ => false end.

(** Modelled from the spec: [getDimAndTileMapping], declared in
    LinalgXOps.td as the mapping from the positions in [inner_dims_pos] to
    their tile factors.  For a tiled dimension it gives the place [j] of
    the dimension in [inner_dims_pos] and the tile size at that place. *)
Definition getDimAndTileMapping (D : PackingDescriptor) (dim : nat)
  : option (nat * TileSize) :=
  match list_find (fun p => p = dim) (inner_dims_pos D) with
  | Some (j, _) => match inner_tiles D !! j with
                   | Some t => Some (j, t)
                   | None => None
                   end
  | None => None
  end.

(** Modelled from the spec: the division of a tiled extent by its tile
    size (section 4.1), ceiling-division if padding is allowed, exact
    division otherwise. *)
Definition ceilDiv (a b : Z) : Z := (a + b - 1) / b.

Definition divideExtent (hasPadding : bool) (n t : Z) : Z :=
  if hasPadding then ceilDiv n t else n / t.

(** Modelled from the spec: the outer extent of a tiled dimension.  It is
    a known integer only when the extent is known and the tile size is a
    compile-time constant; otherwise it is dynamic. *)
Definition tiledExtent (hasPadding : bool) (e : Extent) (t : TileSize)
  : Extent :=
  match e, t with
  | Known n, Constant t => Known (divideExtent hasPadding n t)
  | _, _ => Dynamic
  end.

(** Modelled from the spec: the extent of the inner dimension a tile
    adds, known for a constant tile size only. *)
Definition tileExtent (t : TileSize) : Extent :=
  match t with
  | Constant t => Known t
  | Runtime _ => Dynamic
  end.

(** Modelled from the spec: the permutation [perm] applied to the leading
    [length perm] entries of [l]: entry [i] of the result is entry
    [perm[i]] of [l]. *)
Definition interchange {A} (perm : list nat) (l : list A) : list A :=
  imap (fun i x => match perm !! i with
                   | Some p => default x (l !! p)
                   | None => x
                   end) l.

(** Modelled from the spec: the inverse permutation, for [unpack]: entry
    [perm[i]] of the result is entry [i] of [l]. *)
Definition undoInterchange {A} (perm : list nat) (l : list A) : list A :=
  imap (fun q x => match list_find (fun p => p = q) perm with
                   | Some (i, _) => default x (l !! i)
                   | None => x
                   end) l.

(** Modelled from the spec: [PackOp::getPackedType], the packed result
    shape (section 4.1): the extent of each tiled dimension is divided by
    its tile size (ceiling-division if a padding value is set, exact
    division otherwise), [outer_dims_perm] is applied to these leading
    dimensions, and the tile sizes are appended at the tail in the order
    of [inner_dims_pos]. *)
Definition getPackedType (D : PackingDescriptor) (hasPadding : bool)
    (sourceShape : list Extent) : list Extent :=
  interchange (outer_dims_perm D)
    (imap (fun d e => match getDimAndTileMapping D d with
                      | Some (_, t) => tiledExtent hasPadding e t
                      | None => e
                      end) sourceShape)
  ++ (tileExtent <$> inner_tiles D).

(** Modelled from the spec: the invariants of a packing descriptor
    (section 3) for a source of rank [rank]: as many tile sizes as tiled
    positions, every position a dimension of the source and chosen once,
    tile sizes positive, and [outer_dims_perm], when present, a
    permutation of the leading dimensions it names.  (The spec fixes the
    length of the permutation; any length up to [rank] is admitted here.) *)
Definition validDescriptor (rank : nat) (D : PackingDescriptor) : Prop :=
  length (inner_dims_pos D) = length (inner_tiles D)
  /\ Forall (fun p => (p < rank)%nat) (inner_dims_pos D)
  /\ NoDup (inner_dims_pos D)
  /\ Forall (fun t => 0 < tileValue t) (inner_tiles D)
  /\ (length (outer_dims_perm D) <= rank)%nat
  /\ Forall (fun p => (p < length (outer_dims_perm D))%nat) (outer_dims_perm D)
  /\ NoDup (outer_dims_perm D).

#[global] Instance validDescriptor_dec rank D : Decision (validDescriptor rank D).
Proof. unfold validDescriptor. apply _. Defined.

(** Modelled from the spec: the check made when a pack is built or
    verified.  Without a padding value a constant tile must divide a known
    extent evenly (section 4.1, failure modes). *)
Definition tilesDivide (D : PackingDescriptor) (sourceShape : list Extent)
  : bool :=
  forallb (fun '(d, e) =>
             match e, getDimAndTileMapping D d with
             | Known n, Some (_, Constant t) => n mod t =? 0
             | _, _ => true
             end)
          (imap (fun d e => (d, e)) sourceShape).

(** Modelled from the spec: a pack is well formed when its descriptor is
    valid for the source and, without padding value, the tiles divide. *)
Definition verifyPack (D : PackingDescriptor) (hasPadding : bool)
    (sourceShape : list Extent) : Prop :=
  validDescriptor (length sourceShape) D
  /\ (hasPadding = false -> tilesDivide D sourceShape = true).

(** Modelled from the spec: the extent [unpack] gives back to a tiled
    dimension. *)
Definition untiledExtent (e : Extent) (t : TileSize) : Extent :=
  match e, t with
  | Known n, Constant t => Known (n * t)
  | _, _ => Dynamic
  end.

(** Modelled from the spec: [UnPackOp::inferResultType], the structural
    inverse of [getPackedType] (section 4.1): from the packed shape and the
    descriptor, drop the tile dimensions at the tail, undo
    [outer_dims_perm], and multiply the extent of each tiled dimension by
    its tile size. *)
Definition inferUnpackedType (D : PackingDescriptor)
    (packedShape : list Extent) : list Extent :=
  let rank := (length packedShape - length (inner_tiles D))%nat in
  imap (fun d e => match getDimAndTileMapping D d with
                   | Some (_, t) => untiledExtent e t
                   | None => e
                   end)
       (undoInterchange (outer_dims_perm D) (take rank packedShape)).

(** The source dimension the outer dimension [i] of the packed shape is
    made from. *)
Definition sourceDimOf (D : PackingDescriptor) (i : nat) : nat :=
  default i (outer_dims_perm D !! i).

(** Whether dimension [d] is tiled with a tile size known only at run
    time. *)
Definition tiledByRuntime (D : PackingDescriptor) (d : nat) : bool :=
  match getDimAndTileMapping D d with
  | Some (_, t) => isRuntimeTile t
  | None => false
  end.

(** The example of LinalgXOps.td with padding: [inner_dims_pos = [0, 1]],
    [inner_tiles = [8, 2]], [memref<13x15xf32>] into
    [memref<2x8x8x2xf32>]; and the same with the first tile size a runtime
    value. *)
Definition NC_to_NCnc : PackingDescriptor := {|
  inner_dims_pos := [0; 1]%nat;
  inner_tiles := [Constant 8; Constant 2];
  outer_dims_perm := []
|}.

Definition NC_to_NCnc_runtime : PackingDescriptor := {|
  inner_dims_pos := [0; 1]%nat;
  inner_tiles := [Runtime 8; Constant 2];
  outer_dims_perm := []
|}.

(** The example [KC_to_KCck] of LinalgXOps.td, [memref<128x256xf32>] into
    [memref<16x8x32x8xf32>], here with the two outer dimensions swapped as
    well. *)
Definition KC_to_CKck : PackingDescriptor := {|
  inner_dims_pos := [1; 0]%nat;
  inner_tiles := [Constant 32; Constant 8];
  outer_dims_perm := [1; 0]%nat
|}.

(** *** Scalar reference semantics

    A tensor is read at a multi-index.  The scalar implementation makes one
    element copy per point of its iteration domain. *)
Section Scalar.
Context {V : Type}.

Definition Tensor := list Z -> V.

Definition inBounds (shape idx : list Z) : bool :=
  bool_decide (length idx = length shape)
  && forallb (fun '(i, e) => (0 <=? i) && (i <? e)) (zip idx shape).

(** Modelled from the spec: where the element at index [x] of the unpacked
    tensor lives in the packed one (section 8): outer coordinates
    [floor(index / tile)], permuted, then inner coordinates
    [index mod tile]. *)
Definition packedIndex (D : PackingDescriptor) (x : list Z) : list Z :=
  interchange (outer_dims_perm D)
    (imap (fun d xi => match getDimAndTileMapping D d with
                       | Some (_, t) => xi / tileValue t
                       | None => xi
                       end) x)
  ++ ((fun '(pos, t) => default 0 (x !! pos) mod tileValue t)
        <$> zip (inner_dims_pos D) (inner_tiles D)).

(** Modelled from the spec: the index of the source element that the point
    [p] of the packed iteration domain copies. *)
Definition sourceIndex (D : PackingDescriptor) (p : list Z) : list Z :=
  let rank := (length p - length (inner_tiles D))%nat in
  let inner := drop rank p in
  imap (fun d o => match getDimAndTileMapping D d with
                   | Some (j, t) => o * tileValue t + default 0 (inner !! j)
                   | None => o
                   end)
       (undoInterchange (outer_dims_perm D) (take rank p)).

(** Modelled from the spec: the scalar implementation of [pack].  A point
    whose source index is outside the source holds the padding value;
    without a padding value its content is undefined ([None]). *)
Definition packScalar (D : PackingDescriptor) (sourceShape : list Z)
    (padding_value : option V) (input : Tensor) : list Z -> option V :=
  fun p => let s := sourceIndex D p in
           if inBounds sourceShape s then Some (input s) else padding_value.

(** Modelled from the spec: the scalar implementation of [unpack]: each
    element of the result is read from its place in the packed tensor. *)
Definition unpackScalar (D : PackingDescriptor) (packed : list Z -> option V)
  : list Z -> option V :=
  fun x => packed (packedIndex D x).

End Scalar.

(** A tensor of integers whose element at [[i; j]] is [1000 * i + j]. *)
Definition exampleTensor : list Z -> Z :=
  fun idx => 1000 * default 0 (idx !! 0%nat) + default 0 (idx !! 1%nat).

End LinalgX.

(** ** Notions for further statements about TppUtils.cpp *)
Module TppUtilsNotions.
Import Mlir Affine Linalg TppUtils.

(** The instances of an operation type among some operations. *)
Definition instancesOf (isOpType : OpName -> bool) (ops : list Operation)
  : list Operation :=
  List.filter (fun op => isOpType (getName op)) ops.

(** A buffer that is zero-filled and then copied:
<<
    %a = memref.alloc() : memref<4x8xf32>
    linalg.fill ins(%cst : f32) outs(%a : memref<4x8xf32>)
    memref.copy %a, %b : memref<4x8xf32> to memref<4x8xf32>
>>
    The users of [%a] are visited from the last to the first. *)
Definition allocOp : Operation :=
  mkOperation 40 (OtherOp "memref.alloc") [] 0 [MemRefType [4; 8]] [].
Definition fillOfAlloc : Operation :=
  mkOperation 41 LinalgFillOp
    [OpResult zeroConstant 0; OpResult allocOp 0] 1 [] [].
Definition copyOfAlloc : Operation :=
  mkOperation 42 MemrefCopyOp [OpResult allocOp 0; memrefArg 1 4 8] 0 [] [].

Definition filledThenCopied : IRQueries := {|
  isElementwise := fun _ => true;
  getUsers := fun op => if (getOpId op =? 40)%nat
                        then [copyOfAlloc; fillOfAlloc] else []
|}.

(** A relu on a static 4x8 buffer written [max(0, x)]:
<<
    ^bb0(%out: f32):
      %0 = arith.maxf %cst, %out : f32
      linalg.yield %0 : f32
>> *)
Definition swappedMaxf : Operation :=
  binaryOp 10 ArithMaxFOp (OpResult zeroConstant 0) (bodyArg 0).
Definition swappedRelu : LinalgOp :=
  elementwiseGeneric [memrefArg 0 4 8] 0 [f32]
    [swappedMaxf; yieldOp 11 (OpResult swappedMaxf 0)].

(** The attributes [m_AnyZeroFloat] and [m_Zero] accept: a float or an
    integer zero, scalar or splat. *)
Definition isZeroAttribute (attr : Attribute) : Prop :=
  attr = FloatAttr true \/ attr = SplatFloatAttr true
  \/ attr = IntegerAttr 0 \/ attr = SplatIntegerAttr 0.

(** [throughSources ops o z]: from the operation [o] the chase goes
    through the looked-through operations [ops], each one the definition of
    the source of the one before, and arrives at [z], the definition of the
    source of the last one (null for a value without defining
    operation). *)
Inductive throughSources
  : list Operation -> option Operation -> option Operation -> Prop :=
| throughSources_here (z : option Operation) : throughSources [] z z
| throughSources_step (op : Operation) (src : Value)
    (ops : list Operation) (z : option Operation) :
    transparentSource op = Some src ->
    throughSources ops (getDefiningOp src) z ->
    throughSources (op :: ops) (Some op) z.

(** Where the chase through the sources stops: at a value without defining
    operation, or at an operation [isZeroTensor] does not look at. *)
Definition endsZeroChase (z : option Operation) : Prop :=
  match z with
  | None => True
  | Some d => outsideZeroChase (getName d) = true
  end.

Section WithIR.
Context `{IRQueries}.

(** [p] is the closest earlier user of [d] relative to [op]: the entry that
    follows the first occurrence of [op] in the user list of [d], which is
    visited from the last user to the first. *)
Definition closestEarlierUser (d op p : Operation) : Prop :=
  exists pre c post,
    getUsers d = pre ++ c :: p :: post
    /\ opEq c op = true
    /\ Forall (fun u => opEq u op = false) pre.

(** The operation that defines the source of [op], if any, has no such
    user. *)
Definition hasNoEarlierUser (op : Operation) : Prop :=
  forall src d p, transparentSource op = Some src ->
                  getDefiningOp src = Some d ->
                  ~ closestEarlierUser d op p.

End WithIR.

(** A buffer copied onto itself and then read by a relu with an addition
    fused into its body:
<<
    %a = memref.alloc() : memref<4x8xf32>
    memref.copy %a, %a : memref<4x8xf32> to memref<4x8xf32>
    linalg.generic ins(%a : memref<4x8xf32>) outs(%b : memref<4x8xf32>) {
    ^bb0(%in: f32, %out: f32):
      %0 = arith.maxf %in, %out : f32
      %1 = arith.addf %0, %in : f32
      linalg.yield %1 : f32
    }
>>
    The copy uses [%a] twice, so it is listed twice among the users of the
    allocation, after the generic. *)
Definition selfCopy : Operation :=
  mkOperation 43 MemrefCopyOp [OpResult allocOp 0; OpResult allocOp 0] 0 [] [].
Definition maxfOfArgs : Operation :=
  binaryOp 10 ArithMaxFOp (bodyArg 0) (bodyArg 1).
Definition addfAfterMaxf : Operation :=
  binaryOp 12 ArithAddFOp (OpResult maxfOfArgs 0) (bodyArg 0).
Definition reluAfterSelfCopy : LinalgOp :=
  elementwiseGeneric [OpResult allocOp 0; memrefArg 1 4 8] 1 [f32; f32]
    [maxfOfArgs; addfAfterMaxf; yieldOp 11 (OpResult addfAfterMaxf 0)].

Definition selfCopied : IRQueries := {|
  isElementwise := fun _ => true;
  getUsers := fun op => if (getOpId op =? 40)%nat
                        then [operation reluAfterSelfCopy; selfCopy; selfCopy]
                        else []
|}.

(** A tensor filled with a constant that is not zero:
<<
    %one = arith.constant 1.0 : f32
    %f = linalg.fill ins(%one : f32) outs(%e : tensor<4x8xf32>)
>> *)
Definition oneConstant : Operation :=
  mkOperation 44 (ArithConstantOp (FloatAttr false)) [] 0 [f32] [].
Definition fillOfOne : Operation :=
  mkOperation 45 LinalgFillOp
    [OpResult oneConstant 0; OpResult emptyTensor 0] 1
    [RankedTensorType [4; 8]] [].

(** The type with the extents of its shape replaced, the kind of type
    kept. *)
Definition withShape (f : list Z -> list Z) (t : MType) : MType :=
  match t with
  | MemRefType shape => MemRefType (f shape)
  | RankedTensorType shape => RankedTensorType (f shape)
  | _ => t
  end.

(** The same value with the extents of its type replaced. *)
Definition retype (f : list Z -> list Z) (v : Value) : Value :=
  match v with
  | BlockArgument owner argNumber ty =>
      BlockArgument owner argNumber (withShape f ty)
  | OpResult (mkOperation id name operands k tys nested) i =>
      OpResult (mkOperation id name operands k (map (withShape f) tys) nested)
               i
  end.

(** The same structured operation on operands whose extents are
    replaced. *)
Definition withExtents (f : list Z -> list Z) (linalgOp : LinalgOp)
  : LinalgOp :=
  let 'mkOperation id name operands k tys nested := operation linalgOp in
  {| operation := mkOperation id name (map (retype f) operands) k tys nested;
     iteratorTypes := iteratorTypes linalgOp;
     indexingMaps := indexingMaps linalgOp;
     region := region linalgOp |}.

(** Every extent made dynamic. *)
Definition allDynamic (shape : list Z) : list Z :=
  map (fun _ => kDynamic) shape.

End TppUtilsNotions.

(** ** lib/TPP/Dialect/Tpp/TppUtils.cpp: the library-call mark *)
Module TppMark.
Import Mlir Linalg TppUtils.

(** [getLibraryCallName] of a structured operation, which the surrounding
    IR answers. *)
Class LibraryCallQuery := {
  getLibraryCallName : LinalgOp -> string
}.

(** [std::string::find] of a one-character delimiter: the position of its
    first occurrence, [None] for [npos]. *)
Fixpoint find (delimiter : Ascii.ascii) (s : string) : option nat :=
  match s with
  | EmptyString => None
  | String c rest =>
      if Ascii.eqb c delimiter then Some 0%nat
      else match find delimiter rest with
           | Some i => Some (S i)
           | None => None
           end
  end.

(** [std::string::substr(0, count)]: the first [count] characters, the whole
    string when [count] is [npos] or past the end. *)
Fixpoint takeString (count : nat) (s : string) : string :=
  match count, s with
  | S count, String c rest => String c (takeString count rest)
  | _, _ => EmptyString
  end.

Definition substr0 (s : string) (count : option nat) : string :=
  match count with
  | Some count => takeString count s
  | None => s
  end.

Definition isEmptyString (s : string) : bool :=
  match s with EmptyString => true | _ => false end.

Section WithLibraryCall.
Context `{LibraryCallQuery}.

Definition hasTppMark (linalgOp : LinalgOp) : bool :=
  if negb (isaGeneric (getName (operation linalgOp))) then false
  else
    let libraryCall := getLibraryCallName linalgOp in
    if isEmptyString libraryCall then false
    else
      let delimiter := "."%char in
      let prefix := substr0 libraryCall (find delimiter libraryCall) in
      String.eqb prefix "tpp".

Definition isMarkedWithTpp (linalgOp : LinalgOp) (target : string) : bool :=
  if negb (hasTppMark linalgOp) then false
  else
    let libraryCall := getLibraryCallName linalgOp in
    String.eqb libraryCall target.

End WithLibraryCall.

(** A library call that carries the mark: [tpp] alone or [tpp.] followed by
    anything. *)
Definition isTppName (name : string) : Prop :=
  name = "tpp"%string \/ exists rest, name = ("tpp." ++ rest)%string.

(** An operation with a given name and library call. *)
Definition namedOp (name : OpName) : LinalgOp := {|
  operation := mkOperation 30 name [] 0 [] [];
  iteratorTypes := [];
  indexingMaps := [];
  region := []
|}.

Definition calls (libraryCall : string) : LibraryCallQuery :=
  {| getLibraryCallName := fun _ => libraryCall |}.

End TppMark.

(** ** lib/TPP/ConvertVectorToXeGPU.cpp: the preconditions of a transfer *)
Module VectorToXeGPU.
Import Mlir Affine LinalgToXsmm.

(** [isZeroConstant]: the value is an [arith.constant] whose attribute is a
    float or an integer that is zero. *)
Definition isZeroConstant (val : Value) : bool :=
  match getDefiningOp val with
  | Some op =>
      match getName op with
      | ArithConstantOp (FloatAttr z) => z
      | ArithConstantOp (IntegerAttr c) => c =? 0
      | _ => false
      end
  | None => false
  end.

(** What [transferPreconditions] reads of a vector transfer: its mask, the
    type of its source, the rank of its vector and its permutation map. *)
Record VectorTransferOp := {
  getMask : option Value;
  getShapedType : MType;
  vectorRank : nat;
  getPermutationMap : AffineMap
}.

(** [getStridesAndOffset] of a memref type, from the MLIR library: the
    strides, or a failure. *)
Class StridesQuery := {
  getStridesAndOffset : MType -> option (list Z)
}.

Inductive MatchResult :=
| Matched
| MatchFailure (reason : string).

(** [AffineMap::isMinorIdentity]: no symbols, and the results are the last
    dimensions in order. *)
Definition getMinorIdentityMap (dims results : nat) : AffineMap :=
  {| numDims := dims; numSymbols := 0;
     results := AffineDimExpr <$> seq (dims - results) results |}.

Definition isMinorIdentity (m : AffineMap) : bool :=
  (getNumResults m <=? getNumDims m)%nat
  && bool_decide (m = getMinorIdentityMap (getNumDims m) (getNumResults m)).

(** [ArrayRef::take_back]: the last [n] elements, the whole when there are
    fewer. *)
Definition take_back {A} (n : nat) (l : list A) : list A :=
  drop (length l - n) l.

(** The loop of [transferPreconditions] over the last results of the map.
    [bound] is [numInputDims - vecRank], computed on [unsigned]. *)
Fixpoint innermostLoop (bound : Z) (exprs : list AffineExpr)
  : Outcome MatchResult :=
  match exprs with
  | [] => Returns Matched
  | AffineDimExpr p :: rest =>
      if Z.of_nat p <? bound
      then Returns (MatchFailure "Only innermost dimensions can be accessed")
      else innermostLoop bound rest
  | _ :: _ => Asserts
  end.

Section WithStrides.
Context `{StridesQuery}.

Definition transferPreconditions (xferOp : VectorTransferOp)
  : Outcome MatchResult :=
  match getMask xferOp with
  | Some _ => Returns (MatchFailure "Masked transfer is not supported")
  | None =>
    match getShapedType xferOp with
    | MemRefType _ =>
      let srcTy := getShapedType xferOp in
      let vecRank := vectorRank xferOp in
      if negb ((vecRank =? 1)%nat || (vecRank =? 2)%nat)
      then Returns (MatchFailure "Expects 1D or 2D vector result")
      else
        match getStridesAndOffset srcTy with
        | None =>
            Returns (MatchFailure
              "Buffer must be contiguous in the innermost dimension")
        | Some strides =>
            b ← back strides;
            if negb (b =? 1)
            then Returns (MatchFailure
                   "Buffer must be contiguous in the innermost dimension")
            else
              let map := getPermutationMap xferOp in
              if negb (isProjectedPermutation map false)
              then Returns (MatchFailure "Unsupported permutation map")
              else
                let numInputDims := getNumInputs map in
                innermostLoop
                  (toUnsigned (Z.of_nat numInputDims - Z.of_nat vecRank))
                  (take_back vecRank (results map))
        end
    | _ => Returns (MatchFailure "Expects memref source")
    end
  end.

End WithStrides.

(** The positions of the dimensions a map names are below its number of
    dimensions, as the construction of an affine map checks. *)
Definition dimsInRange (m : AffineMap) : Prop :=
  Forall (fun e => match e with
                   | AffineDimExpr p => (p < numDims m)%nat
                   | _ => True
                   end) (results m).

(** A transfer of a 2-D vector from a [memref<16x32xf32>] with the two
    dimensions swapped. *)
Definition transposedRead : VectorTransferOp := {|
  getMask := None;
  getShapedType := MemRefType [16; 32];
  vectorRank := 2;
  getPermutationMap := {| numDims := 2; numSymbols := 0;
                          results := [AffineDimExpr 1; AffineDimExpr 0] |}
|}.

Definition identityLayout : StridesQuery :=
  {| getStridesAndOffset := fun t => match t with
                                     | MemRefType shape => identityStrides shape
                                     | _ => None
                                     end |}.

End VectorToXeGPU.

(** * Properties *)

(** ** Broadcast classification ([getBroadCastFromMap]) *)
Module BroadcastProofs.
Import Mlir Affine Linalg LinalgToXsmm.

(** The loop that extends a map stops once the map has as many results as
    inputs, and only puts zeros in front. *)
Lemma extendWithLeadingZeros_results (k : nat) (map : AffineMap) :
  (getNumResults map <= getNumInputs map)%nat ->
  (getNumInputs map - getNumResults map <= k)%nat ->
  results (extendWithLeadingZeros k map)
  = replicate (getNumInputs map - getNumResults map) (AffineConstantExpr 0)
    ++ results map.
Proof.
  revert map. induction k as [|k IH]; intros map Hle Hk.
  - replace (getNumInputs map - getNumResults map)%nat with 0%nat by lia.
    reflexivity.
  - cbn [extendWithLeadingZeros].
    destruct (getNumResults map =? getNumInputs map)%nat eqn:E; cbn [negb].
    + apply Nat.eqb_eq in E. rewrite E, Nat.sub_diag. reflexivity.
    + apply Nat.eqb_neq in E.
      assert (Hn : getNumInputs (insertResult map (getAffineConstantExpr 0) 0)
                   = getNumInputs map) by reflexivity.
      assert (Hr : getNumResults (insertResult map (getAffineConstantExpr 0) 0)
                   = S (getNumResults map)) by reflexivity.
      rewrite IH; rewrite ?Hn, ?Hr; try lia.
      cbn [insertResult results take drop app].
      replace (getNumInputs map - getNumResults map)%nat
        with (S (getNumInputs map - S (getNumResults map))) by lia.
      generalize (getNumInputs map - S (getNumResults map))%nat as j.
      intros j. cbn [replicate]. unfold getAffineConstantExpr.
      induction j as [|j IHj]; [reflexivity|].
      cbn [replicate app]. f_equal. exact IHj.
Qed.

Lemma isZeroExpr_true (e : AffineExpr) :
  isZeroExpr e = true -> e = AffineConstantExpr 0.
Proof.
  destruct e as [| |c|]; cbn; try discriminate.
  intros E. apply Z.eqb_eq in E. now subst.
Qed.

(** A map over two dimensions with at least one result and more than one
    broadcast dimension is rejected. *)
Lemma getBroadCastFromMap_many (map : AffineMap) :
  results map <> [] -> (1 < numBroadcastDims map)%nat ->
  getBroadCastFromMap map = None.
Proof.
  destruct map as [nd ns rs]. unfold numBroadcastDims, getBroadCastFromMap.
  unfold getNumInputs, getNumResults, getNumSymbols. cbn [numDims numSymbols results].
  intros Hne Hcount.
  destruct (_ || _) eqn:G; [reflexivity|].
  apply orb_false_iff in G as [G G3]. apply orb_false_iff in G as [G1 G2].
  apply negb_false_iff, Nat.eqb_eq in G2, G3. subst ns.
  rewrite Nat.add_0_r in *. subst nd.
  apply Nat.ltb_ge in G1.
  destruct rs as [|e1 [|e2 [|e3 rs]]]; [congruence| | |cbn in G1; lia].
  - rewrite filter_cons, filter_nil in Hcount.
    destruct (decide (isZeroExpr e1 = true)) as [Z1|Z1];
      cbn in Hcount; [|lia].
    apply isZeroExpr_true in Z1. subst e1. reflexivity.
  - rewrite !filter_cons, filter_nil in Hcount.
    destruct (decide (isZeroExpr e1 = true)) as [Z1|Z1];
      destruct (decide (isZeroExpr e2 = true)) as [Z2|Z2];
      cbn in Hcount; try lia.
    apply isZeroExpr_true in Z1, Z2. subst. reflexivity.
Qed.

(** A map that is not a projected permutation (zeros allowed) is
    rejected: the extension with leading zeros does not make it one. *)
Lemma getBroadCastFromMap_not_projected (map : AffineMap) :
  isProjectedPermutation map true = false -> getBroadCastFromMap map = None.
Proof.
  destruct map as [nd ns rs].
  unfold getBroadCastFromMap, isProjectedPermutation.
  unfold getNumInputs, getNumResults, getNumSymbols.
  cbn [numDims numSymbols results].
  intros Hpp.
  destruct (_ || _) eqn:G; [reflexivity|].
  apply orb_false_iff in G as [G G3]. apply orb_false_iff in G as [G1 G2].
  apply negb_false_iff, Nat.eqb_eq in G2, G3. subst ns.
  rewrite Nat.add_0_r in *. subst nd.
  apply Nat.ltb_ge in G1.
  rewrite (proj2 (Nat.ltb_ge _ _) G1) in Hpp.
  destruct rs as [|e1 [|e2 [|e3 rs]]]; [discriminate| | |cbn in G1; lia].
  - cbn in Hpp |- *. unfold isProjectedPermutation. cbn.
    destruct e1 as [p| |c|]; cbn in Hpp |- *; try reflexivity.
    + destruct p as [|[|p]]; cbn in Hpp; discriminate.
    + destruct (c =? 0); cbn in Hpp |- *; [discriminate|reflexivity].
  - cbn in Hpp. cbn. unfold isProjectedPermutation. cbn.
    rewrite Hpp. reflexivity.
Qed.

(** C2.  [getBroadCastFromMap] gives NONE for [(d0,d1)->(d0,d1)], COL for
    [(d0,d1)->(0,d1)], ROW for [(d0,d1)->(d0,0)] and SCALAR for
    [(d0,d1)->()]; it fails for every map that has a result and more than
    one broadcast dimension, whose number of dimensions or of inputs is not
    2, that has a symbol, or that is not a projected permutation with zeros
    allowed; and
    [getBroadCastUnaryFlagFromMap] turns SCALAR, ROW, COL and NONE into the
    flags BCAST_SCALAR, BCAST_ROW, BCAST_COL and NONE, failing when the
    classification fails. *)
Theorem getBroadCastFromMap_classification :
  getBroadCastFromMap (map2 [d0; d1]) = Some BroadCastType.NONE
  /\ getBroadCastFromMap (map2 [c0; d1]) = Some BroadCastType.COL
  /\ getBroadCastFromMap (map2 [d0; c0]) = Some BroadCastType.ROW
  /\ getBroadCastFromMap (map2 []) = Some BroadCastType.SCALAR
  /\ (forall map : AffineMap,
        (results map <> [] /\ (1 < numBroadcastDims map)%nat)
        \/ getNumDims map <> 2%nat
        \/ getNumInputs map <> 2%nat
        \/ getNumSymbols map <> 0%nat
        \/ isProjectedPermutation map true = false ->
        getBroadCastFromMap map = None)
  /\ (forall map : AffineMap,
        getBroadCastUnaryFlagFromMap map
        = match getBroadCastFromMap map with
          | Some BroadCastType.SCALAR => Some UnaryFlags.BCAST_SCALAR
          | Some BroadCastType.ROW => Some UnaryFlags.BCAST_ROW
          | Some BroadCastType.COL => Some UnaryFlags.BCAST_COL
          | Some BroadCastType.NONE => Some UnaryFlags.NONE
          | None => None
          end)
  /\ getBroadCastUnaryFlagFromMap (map2 [d0; d1]) = Some UnaryFlags.NONE
  /\ getBroadCastUnaryFlagFromMap (map2 [c0; d1]) = Some UnaryFlags.BCAST_COL
  /\ getBroadCastUnaryFlagFromMap (map2 [d0; c0]) = Some UnaryFlags.BCAST_ROW
  /\ getBroadCastUnaryFlagFromMap (map2 []) = Some UnaryFlags.BCAST_SCALAR.
Proof.
  repeat split; try reflexivity.
  - assert (Hinputs : forall map : AffineMap,
              getNumInputs map <> 2%nat -> getBroadCastFromMap map = None).
    { intros map Hin. unfold getBroadCastFromMap.
      apply Nat.eqb_neq in Hin. rewrite Hin.
      now rewrite orb_true_r. }
    assert (Hsymbols : forall map : AffineMap,
              getNumSymbols map <> 0%nat -> getBroadCastFromMap map = None).
    { intros map Hsym. unfold getBroadCastFromMap.
      apply Nat.eqb_neq in Hsym. rewrite Hsym.
      now rewrite orb_true_r. }
    intros map [[Hne Hmany]|[Hdims|[Hin|[Hsym|Hpp]]]].
    + now apply getBroadCastFromMap_many.
    + destruct (decide (getNumSymbols map = 0%nat)) as [Hz|Hnz].
      * apply Hinputs. unfold getNumInputs, getNumDims, getNumSymbols in *.
        lia.
      * now apply Hsymbols.
    + unfold getBroadCastFromMap.
      apply Nat.eqb_neq in Hin. rewrite Hin.
      now rewrite orb_true_r.
    + unfold getBroadCastFromMap.
      apply Nat.eqb_neq in Hsym. rewrite Hsym.
      now rewrite orb_true_r.
    + now apply getBroadCastFromMap_not_projected.
Qed.

(** The rejection at [(d0,d1)->(0,0)], which broadcasts both dimensions. *)
Lemma getBroadCastFromMap_classification_witness :
  (results (map2 [c0; c0]) <> [] /\ (1 < numBroadcastDims (map2 [c0; c0]))%nat)
  /\ getBroadCastFromMap (map2 [c0; c0]) = None.
Proof.
  assert (Hyp : results (map2 [c0; c0]) <> []
                /\ (1 < numBroadcastDims (map2 [c0; c0]))%nat).
  { split; [discriminate|vm_compute; lia]. }
  split; [exact Hyp|].
  apply (proj1 (proj2 (proj2 (proj2 (proj2
           getBroadCastFromMap_classification))))).
  left. exact Hyp.
Defined.

End BroadcastProofs.

(** ** The kernel call descriptor ([getUnaryInfo]) *)
Module UnaryInfoProofs.
Import Mlir Affine Linalg LinalgToXsmm.

Section WithQueries.
Context `{XsmmQueries}.

Lemma unitStrideLeadingDim_Some (v : Value) (leading : Z) :
  unitStrideLeadingDim v = Returns (Some leading)
  <-> hasUnitInnermostStride v leading.
Proof.
  unfold unitStrideLeadingDim, hasUnitInnermostStride, back, front.
  destruct (getStaticStrides v) as [strides|].
  - destruct (last strides) as [b|] eqn:Hb; cbn.
    + destruct (Z.eqb_spec b 1) as [->|Hne]; cbn.
      * destruct (head strides) as [f|] eqn:Hf; cbn.
        -- split.
           ++ intros [= ->]. eauto.
           ++ intros (s & [= <-] & _ & Hh). congruence.
        -- destruct strides; discriminate.
      * split; [discriminate|].
        intros (s & [= <-] & Hl & _). congruence.
    + split; [discriminate|].
      intros (s & [= <-] & Hl & _). congruence.
  - split; [discriminate|]. intros (s & Hs & _). discriminate.
Qed.

Lemma getUnaryInfo_Some (input output : Value) (info : UnaryInfo) :
  getUnaryInfo input output = Returns (Some info)
  <-> exists M N, getShape (getType output) = Some [M; N]
        /\ hasUnitInnermostStride output (ldo info)
        /\ inputLeadingDim input (ldi info)
        /\ m info = toUnsigned M /\ n info = toUnsigned N.
Proof.
  unfold getUnaryInfo, inputLeadingDim, getRank.
  destruct (isShapedType (getType output)) eqn:Hout; cbn [negb].
  2:{ split; [discriminate|]. intros (M & N & Hs & _).
      destruct (getType output); discriminate. }
  destruct (getShape (getType output)) as [shape|] eqn:Hshape; cbn.
  2:{ split; [discriminate|]. intros (M & N & Hs & _). discriminate. }
  destruct (Nat.eqb_spec (length shape) 2) as [Hlen|Hlen]; cbn.
  2:{ split; [discriminate|]. intros (M & N & [= ->] & _). now cbn in Hlen. }
  destruct shape as [|M [|N [|? ?]]]; try discriminate. cbn.
  destruct (isShapedType (getType input)); cbn.
  - setoid_rewrite <- unitStrideLeadingDim_Some.
    destruct (unitStrideLeadingDim input) as [|[li|]]; cbn.
    + split; [discriminate|]. intros (? & ? & _ & _ & ? & _). discriminate.
    + destruct (unitStrideLeadingDim output) as [|[lo|]]; cbn.
      * split; [discriminate|]. intros (? & ? & _ & ? & _). discriminate.
      * split.
        -- intros [= <-]. cbn. eauto 10.
        -- intros (? & ? & [= <- <-] & [= ->] & [= ->] & Hm & Hn).
           destruct info; cbn in *. now subst.
      * split; [discriminate|]. intros (? & ? & _ & ? & _). discriminate.
    + split; [discriminate|]. intros (? & ? & _ & _ & ? & _). discriminate.
  - setoid_rewrite <- unitStrideLeadingDim_Some.
    destruct (unitStrideLeadingDim output) as [|[lo|]]; cbn.
    + split; [discriminate|]. intros (? & ? & _ & ? & _). discriminate.
    + split.
      * intros [= <-]. cbn. eauto 10.
      * intros (? & ? & [= <- <-] & [= ->] & Hi & Hm & Hn).
        destruct info; cbn in *. now subst.
    + split; [discriminate|]. intros (? & ? & _ & ? & _). discriminate.
Qed.

Lemma toUnsigned_small (x : Z) : 0 <= x < 2 ^ 32 -> toUnsigned x = x.
Proof. intros Hx. unfold toUnsigned. now apply Z.mod_small. Qed.

(** C3 (amended).  [getUnaryInfo] succeeds exactly when the output is of
    rank 2 and has static strides with innermost stride 1 and the input,
    if shaped, has static strides with innermost stride 1; then [ldo] is
    the leading stride of the output, [ldi] the leading stride of the
    input (1 for an input that is not shaped), and [m], [n] are the two
    extents of the output converted to [unsigned], which are the extents
    themselves when these are below 2^32. *)
Theorem getUnaryInfo_descriptor (input output : Value) (info : UnaryInfo) :
  (getUnaryInfo input output = Returns (Some info)
   <-> exists M N, getShape (getType output) = Some [M; N]
         /\ hasUnitInnermostStride output (ldo info)
         /\ inputLeadingDim input (ldi info)
         /\ m info = toUnsigned M /\ n info = toUnsigned N)
  /\ (forall M N, getUnaryInfo input output = Returns (Some info) ->
        getShape (getType output) = Some [M; N] ->
        0 <= M < 2 ^ 32 -> 0 <= N < 2 ^ 32 ->
        m info = M /\ n info = N).
Proof.
  split; [apply getUnaryInfo_Some|].
  intros M N Hret Hshape HM HN.
  apply getUnaryInfo_Some in Hret as (M' & N' & Hs & _ & _ & -> & ->).
  rewrite Hshape in Hs. injection Hs as <- <-.
  now rewrite !toUnsigned_small.
Qed.

End WithQueries.

(** A 4x8 output and a 4x8 input with the identity layout. *)
Lemma getUnaryInfo_descriptor_witness :
  @getUnaryInfo identityLayoutQueries (memref2D 0 4 8) (memref2D 1 4 8)
  = Returns (Some {| m := 4; n := 8; ldi := 8; ldo := 8 |})
  /\ m {| m := 4; n := 8; ldi := 8; ldo := 8 |} = 4.
Proof.
  pose proof (@getUnaryInfo_descriptor identityLayoutQueries
                (memref2D 0 4 8) (memref2D 1 4 8)
                {| m := 4; n := 8; ldi := 8; ldo := 8 |}) as [Hiff Hrange].
  assert (Hret : @getUnaryInfo identityLayoutQueries
                   (memref2D 0 4 8) (memref2D 1 4 8)
                 = Returns (Some {| m := 4; n := 8; ldi := 8; ldo := 8 |})).
  { apply Hiff. exists 4, 8.
    repeat split; try reflexivity; exists [8; 1]; repeat split; reflexivity. }
  split; [exact Hret|].
  apply (Hrange 4 8 Hret); [reflexivity|lia|lia].
Defined.

(** The claim as stated fails for an output of type
    [memref<4294967296x1xf32>]: the derivation succeeds and [m] is 0. *)
Lemma getUnaryInfo_m_is_not_the_extent :
  @getUnaryInfo identityLayoutQueries
     (memref2D 0 (2 ^ 32) 1) (memref2D 1 (2 ^ 32) 1)
  = Returns (Some {| m := 0; n := 1; ldi := 1; ldo := 1 |})
  /\ getShape (getType (memref2D 1 (2 ^ 32) 1)) = Some [2 ^ 32; 1]
  /\ m {| m := 0; n := 1; ldi := 1; ldo := 1 |} <> 2 ^ 32.
Proof. split; [reflexivity|split; [reflexivity|discriminate]]. Qed.

End UnaryInfoProofs.

(** ** The rewrite patterns of the linalg-to-xsmm pass *)
Module PatternProofs.
Import Mlir Affine Linalg LinalgToXsmm.

Section WithQueries.
Context `{XsmmQueries}.

Lemma unitStrideLeadingDim_lacks (v : Value) :
  lacksUnitInnermostStride v -> unitStrideLeadingDim v = Returns None.
Proof.
  unfold lacksUnitInnermostStride, unitStrideLeadingDim, back.
  intros [->|(strides & b & -> & -> & Hb)]; [reflexivity|]. cbn.
  now destruct (Z.eqb_spec b 1).
Qed.

Lemma unitStrideLeadingDim_no_assert (v : Value) :
  getStaticStrides v <> Some [] -> unitStrideLeadingDim v <> Asserts.
Proof.
  unfold unitStrideLeadingDim, back, front. intros Hne.
  destruct (getStaticStrides v) as [[|s strides]|]; try congruence.
  - destruct (last (s :: strides)) as [b|] eqn:Hb.
    + cbn. destruct (negb (b =? 1)); cbn; congruence.
    + apply last_None in Hb. discriminate.
Qed.

(** When a precondition fails, [getUnaryInfo] returns failure. *)
Lemma getUnaryInfo_failure (input output : Value) :
  unaryPreconditionFails input output ->
  getUnaryInfo input output = Returns None.
Proof.
  unfold unaryPreconditionFails, getUnaryInfo, getRank.
  intros [(shape & Hshape & Hlen)|((M & N & Hshape) & Hstride)].
  - assert (Hsh : isShapedType (getType output) = true)
      by (destruct (getType output); try discriminate; reflexivity).
    rewrite Hsh, Hshape. cbn.
    now destruct (Nat.eqb_spec (length shape) 2).
  - assert (Hsh : isShapedType (getType output) = true)
      by (destruct (getType output); try discriminate; reflexivity).
    rewrite Hsh, Hshape. cbn.
    destruct Hstride as [[Hin Hlack]|[Hin Hlack]].
    + rewrite Hin, (unitStrideLeadingDim_lacks _ Hlack). reflexivity.
    + rewrite (unitStrideLeadingDim_lacks _ Hlack).
      destruct (isShapedType (getType input)) eqn:Hsi; cbn.
      * destruct Hin as [Hin|Hin]; [discriminate|].
        apply unitStrideLeadingDim_no_assert in Hin.
        destruct (unitStrideLeadingDim input) as [|[l|]]; cbn;
          congruence.
      * reflexivity.
Qed.

Ltac pattern_cases :=
  repeat match goal with
    | |- context [match ?x with _ => _ end] =>
        lazymatch x with
        | context [match _ with _ => _ end] => fail
        | _ => destruct x eqn:?
        end; cbn
    end.

(** A pattern that returns failure has not touched the rewriter. *)
Lemma ConvertFillOpToUnaryZero_failure op rewriter rewriter' :
  ConvertFillOpToUnaryZero op rewriter = Returns (failure, rewriter') ->
  rewriter' = rewriter.
Proof.
  unfold ConvertFillOpToUnaryZero, mbind, Outcome_bind, replaceOpWithUnary.
  pattern_cases; congruence.
Qed.

Lemma ConvertTransposeOpToUnaryTranspose_failure op rewriter rewriter' :
  ConvertTransposeOpToUnaryTranspose op rewriter
  = Returns (failure, rewriter') ->
  rewriter' = rewriter.
Proof.
  unfold ConvertTransposeOpToUnaryTranspose, mbind, Outcome_bind,
    replaceOpWithUnary.
  pattern_cases; congruence.
Qed.

Lemma ConvertGenericToUnaryRelu_failure op rewriter rewriter' :
  ConvertGenericToUnaryRelu op rewriter = Returns (failure, rewriter') ->
  rewriter' = rewriter.
Proof.
  unfold ConvertGenericToUnaryRelu, mbind, Outcome_bind, replaceOpWithUnary.
  pattern_cases; congruence.
Qed.


(** C10 (amended).  When the operands lower through [getUnaryInfo] and the
    output is of shape [M x N], the transpose pattern creates a dispatch of
    kind TRANSPOSE with flag NONE whose dimensions are [n, m, ldi, ldo] of
    the descriptor, [m] and [n] swapped; the zero-fill and relu patterns
    create theirs with [m, n, ldi, ldo]; the descriptor holds [M] and [N]
    converted to [unsigned], so that the transpose dispatches
    [N mod 2^32, M mod 2^32], which is [N, M] for extents below 2^32. *)
Theorem transpose_dispatch_has_input_dims (op : LinalgOp)
    (rewriter : Rewriter) (input output init : Value) (rest : list Value)
    (info : UnaryInfo) (M N : Z) :
  getUnaryInfo input output = Returns (Some info) ->
  getDpsInits op = init :: rest ->
  getShape (getType output) = Some [M; N] ->
  (m info = toUnsigned M /\ n info = toUnsigned N)
  /\ (isTwoDTransposeOp op = Some [input; output] ->
      ConvertTransposeOpToUnaryTranspose op rewriter
      = Returns (success,
                 afterUnary rewriter op init TRANSPOSE
                   [n info; m info; ldi info; ldo info] [UnaryFlags.NONE])
      /\ ConvertTransposeOpToUnaryTranspose op rewriter
         = Returns (success,
                    afterUnary rewriter op init TRANSPOSE
                      [toUnsigned N; toUnsigned M; ldi info; ldo info]
                      [UnaryFlags.NONE])
      /\ (0 <= M < 2 ^ 32 -> 0 <= N < 2 ^ 32 ->
          ConvertTransposeOpToUnaryTranspose op rewriter
          = Returns (success,
                     afterUnary rewriter op init TRANSPOSE
                       [N; M; ldi info; ldo info] [UnaryFlags.NONE])))
  /\ (isTwoDFillOpWithZeros op = Some [input; output] ->
      ConvertFillOpToUnaryZero op rewriter
      = Returns (success,
                 afterUnary rewriter op init ZERO
                   [toUnsigned M; toUnsigned N; ldi info; ldo info]
                   [UnaryFlags.BCAST_SCALAR])
      /\ (0 <= M < 2 ^ 32 -> 0 <= N < 2 ^ 32 ->
          ConvertFillOpToUnaryZero op rewriter
          = Returns (success,
                     afterUnary rewriter op init ZERO
                       [M; N; ldi info; ldo info]
                       [UnaryFlags.BCAST_SCALAR])))
  /\ (forall pos map flag,
        hasBufferSemantics op = true ->
        isTwoDReluOp op = Some [input; output] ->
        getOperandFromValue op input = Returns pos ->
        getMatchingIndexingMap op pos = Some map ->
        getBroadCastUnaryFlagFromMap map = Some flag ->
        ConvertGenericToUnaryRelu op rewriter
        = Returns (success,
                   afterUnary rewriter op init RELU
                     [toUnsigned M; toUnsigned N; ldi info; ldo info] [flag])
        /\ (0 <= M < 2 ^ 32 -> 0 <= N < 2 ^ 32 ->
            ConvertGenericToUnaryRelu op rewriter
            = Returns (success,
                       afterUnary rewriter op init RELU
                         [M; N; ldi info; ldo info] [flag]))).
Proof.
  intros Hinfo Hinit Hshape.
  assert (Hmn : m info = toUnsigned M /\ n info = toUnsigned N).
  { apply UnaryInfoProofs.getUnaryInfo_Some in Hinfo
      as (M' & N' & Hs & _ & _ & Hm & Hn).
    rewrite Hshape in Hs. injection Hs as <- <-. now split. }
  destruct Hmn as [Hm Hn].
  assert (Hsmall : 0 <= M < 2 ^ 32 -> 0 <= N < 2 ^ 32 ->
                   toUnsigned M = M /\ toUnsigned N = N).
  { intros HM HN. now rewrite !UnaryInfoProofs.toUnsigned_small. }
  repeat apply conj.
  - exact Hm.
  - exact Hn.
  - intros Hmatch.
    assert (Hrun : ConvertTransposeOpToUnaryTranspose op rewriter
                   = Returns (success,
                              afterUnary rewriter op init TRANSPOSE
                                [n info; m info; ldi info; ldo info]
                                [UnaryFlags.NONE])).
    { unfold ConvertTransposeOpToUnaryTranspose.
      rewrite Hmatch, Hinfo. cbn. unfold replaceOpWithUnary.
      rewrite Hinit. reflexivity. }
    repeat apply conj.
    + exact Hrun.
    + rewrite Hrun, Hm, Hn. reflexivity.
    + intros HM HN. destruct (Hsmall HM HN) as [EM EN].
      rewrite Hrun, Hm, Hn, EM, EN. reflexivity.
  - intros Hmatch.
    assert (Hrun : ConvertFillOpToUnaryZero op rewriter
                   = Returns (success,
                              afterUnary rewriter op init ZERO
                                [m info; n info; ldi info; ldo info]
                                [UnaryFlags.BCAST_SCALAR])).
    { unfold ConvertFillOpToUnaryZero.
      rewrite Hmatch, Hinfo. cbn. unfold replaceOpWithUnary.
      rewrite Hinit. reflexivity. }
    split.
    + rewrite Hrun, Hm, Hn. reflexivity.
    + intros HM HN. destruct (Hsmall HM HN) as [EM EN].
      rewrite Hrun, Hm, Hn, EM, EN. reflexivity.
  - intros pos map flag Hbuf Hmatch Hpos Hmap Hflag.
    assert (Hrun : ConvertGenericToUnaryRelu op rewriter
                   = Returns (success,
                              afterUnary rewriter op init RELU
                                [m info; n info; ldi info; ldo info]
                                [flag])).
    { unfold ConvertGenericToUnaryRelu.
      rewrite Hbuf, Hmatch, Hinfo. cbn. rewrite Hpos. cbn.
      rewrite Hmap, Hflag. unfold replaceOpWithUnary.
      rewrite Hinit. reflexivity. }
    split.
    + rewrite Hrun, Hm, Hn. reflexivity.
    + intros HM HN. destruct (Hsmall HM HN) as [EM EN].
      rewrite Hrun, Hm, Hn, EM, EN. reflexivity.
Qed.

End WithQueries.


(** A transpose of an 8x4 buffer into a 4x8 buffer dispatches [8, 4]. *)
Lemma transpose_dispatch_has_input_dims_witness :
  let Q := identityLayoutQueries in
  let op := opOnBuffers LinalgTransposeOp (memref2D 0 8 4) (memref2D 1 4 8) in
  ConvertTransposeOpToUnaryTranspose op emptyRewriter
  = Returns (success,
             {| nextOpId := 102;
                actions :=
                  [CreateOp 100
                     (UnaryDispatchOp TRANSPOSE [8; 4; 4; 8]
                        [UnaryFlags.NONE] F32);
                   ReplaceOpWithNewOp (operation op) 101
                     (UnaryOp F32 TRANSPOSE
                        [dispatchResult 100; memref2D 0 8 4;
                         memref2D 1 4 8])] |}).
Proof.
  intros Q op.
  destruct (@transpose_dispatch_has_input_dims Q op emptyRewriter
              (memref2D 0 8 4) (memref2D 1 4 8) (memref2D 1 4 8) []
              {| m := 4; n := 8; ldi := 4; ldo := 8 |} 4 8
              eq_refl eq_refl eq_refl) as (_ & Htranspose & _).
  destruct (Htranspose eq_refl) as (_ & _ & Hsmall).
  apply Hsmall; lia.
Defined.

(** The claim as stated fails for a transpose of a [memref<1x4294967296xf32>]
    into a [memref<4294967296x1xf32>]: the pattern succeeds and dispatches
    [1, 0], where the dimensions of the input are 1 and 4294967296. *)
Lemma transpose_dispatch_truncates_input_dims :
  let Q := identityLayoutQueries in
  let op := opOnBuffers LinalgTransposeOp
              (memref2D 0 1 (2 ^ 32)) (memref2D 1 (2 ^ 32) 1) in
  isTwoDTransposeOp op = Some [memref2D 0 1 (2 ^ 32); memref2D 1 (2 ^ 32) 1]
  /\ getShape (getType (memref2D 0 1 (2 ^ 32))) = Some [1; 2 ^ 32]
  /\ getShape (getType (memref2D 1 (2 ^ 32) 1)) = Some [2 ^ 32; 1]
  /\ ConvertTransposeOpToUnaryTranspose op emptyRewriter
     = Returns (success,
                {| nextOpId := 102;
                   actions :=
                     [CreateOp 100
                        (UnaryDispatchOp TRANSPOSE [1; 0; 2 ^ 32; 1]
                           [UnaryFlags.NONE] F32);
                      ReplaceOpWithNewOp (operation op) 101
                        (UnaryOp F32 TRANSPOSE
                           [dispatchResult 100; memref2D 0 1 (2 ^ 32);
                            memref2D 1 (2 ^ 32) 1])] |})
  /\ 0 <> 2 ^ 32.
Proof.
  intros Q op. repeat apply conj; try reflexivity. discriminate.
Qed.

End PatternProofs.

(** ** The matmul matcher ([isTppMatmul]) *)
Module MatmulProofs.
Import Mlir Affine Linalg TppUtils.

(** The structural and access-pattern facets are enforced. *)
Lemma isTppMatmul_iterators_and_maps (linalgOp : LinalgOp) :
  isTppMatmul linalgOp = true ->
  iteratorTypes linalgOp = [parallel; parallel; reduction]
  /\ indexingMaps linalgOp = matmulMaps.
Proof.
  unfold isTppMatmul, getIteratorTypesArray, getIndexingMapsArray.
  destruct (iteratorTypes linalgOp) as [|t0 [|t1 [|t2 [|? ?]]]];
    try discriminate.
  cbn [length Nat.eqb negb].
  destruct (isParallelIterator t0) eqn:H0; cbn [andb negb]; [|discriminate].
  destruct (isParallelIterator t1) eqn:H1; cbn [andb negb]; [|discriminate].
  destruct (isReductionIterator t2) eqn:H2; cbn [andb negb]; [|discriminate].
  destruct (bool_decide (indexingMaps linalgOp = matmulMaps)) eqn:Hm;
    cbn [negb]; [|discriminate].
  intros _.
  apply bool_decide_eq_true in H0, H1, H2, Hm. now subst.
Qed.

(** The canonical maps are [(d0,d1,d2) -> (d0,d2)], [(d0,d1,d2) -> (d2,d1)]
    and [(d0,d1,d2) -> (d0,d1)]. *)
Lemma matmulMaps_eq :
  matmulMaps
  = [ {| numDims := 3; numSymbols := 0;
         results := [AffineDimExpr 0; AffineDimExpr 2] |};
      {| numDims := 3; numSymbols := 0;
         results := [AffineDimExpr 2; AffineDimExpr 1] |};
      {| numDims := 3; numSymbols := 0;
         results := [AffineDimExpr 0; AffineDimExpr 1] |} ].
Proof. reflexivity. Qed.

(** C1 (at the failing input).  [isTppMatmul] accepts the generic whose
    body yields [c + c]: the result traces back to the add, and the two
    other conditions of [isAddMul] are or-ed to that instead of and-ed.
    The body is not a permutation of [u5(u1(c) + u2(u3(a) * u4(b)))]. *)
Theorem isTppMatmul_accepts_doubling_body :
  isTppMatmul doublingGeneric = true
  /\ isMatmulSkeletonBody doublingGeneric = false
  /\ iteratorTypes doublingGeneric = [parallel; parallel; reduction]
  /\ indexingMaps doublingGeneric = matmulMaps.
Proof. repeat split; reflexivity. Qed.

(** Conversely the matcher accepts every body that is such a permutation:
    the disjunction of [isAddMul] only adds acceptances. *)
Lemma isAddMulSkeleton_isAddMul isAdd isMul (block : Block) :
  isAddMulSkeleton isAdd isMul block = true ->
  isAddMul isAdd isMul block = true.
Proof.
  unfold isAddMulSkeleton, isAddMul.
  destruct (getNumArguments block =? 3)%nat; [|discriminate]. cbn.
  destruct (last (blockOps block)) as [y|]; [|discriminate].
  destruct (getOperands y) as [|res [|? ?]]; try discriminate.
  destruct (getSingleOpOfType isAdd block) as [addOp|]; [|discriminate].
  destruct (getSingleOpOfType isMul block) as [mulOp|]; [|discriminate].
  destruct (getOperands mulOp) as [|a [|b ?]]; try discriminate.
  destruct (getOperands addOp) as [|c1 [|c2 ?]]; try discriminate.
  intros Hs. apply andb_true_iff in Hs as [Hs _].
  apply andb_true_iff in Hs as [-> _]. reflexivity.
Qed.

End MatmulProofs.

(** ** Zero detection ([isZeroTensor]) *)
Module ZeroTensorProofs.
Import Mlir Affine Linalg TppUtils.

Section WithIR.
Context `{IRQueries}.

(** More fuel does not change a result. *)
Lemma isZeroTensorOp_fuel_S (fuel : nat) :
  forall defOp b, isZeroTensorOp fuel defOp = Some b ->
                  isZeroTensorOp (S fuel) defOp = Some b.
Proof.
  induction fuel as [|fuel IH]; intros [op|] b; try (cbn; congruence).
  assert (Hsrc : forall src,
    orElse (isZeroTensorOp fuel (getDefiningOp src))
      (fun _ => isZeroTensorOp fuel
                  (getPrevUser (getDefiningOp src) (Some op))) = Some b ->
    orElse (isZeroTensorOp (S fuel) (getDefiningOp src))
      (fun _ => isZeroTensorOp (S fuel)
                  (getPrevUser (getDefiningOp src) (Some op))) = Some b).
  { intros src. unfold orElse.
    destruct (isZeroTensorOp fuel (getDefiningOp src)) as [[|]|] eqn:E;
      try discriminate; rewrite (IH _ _ E); [congruence|apply IH]. }
  remember (S fuel) as fuel' eqn:Hf.
  cbn [isZeroTensorOp]. rewrite Hf at 1. cbn [isZeroTensorOp].
  destruct (getName op); try congruence.
  - destruct (getInputs op) as [|input [|? ?]]; try congruence. apply Hsrc.
  - destruct (getOperands op) as [|source ?]; try congruence. apply Hsrc.
  - destruct (getOperands op) as [|source ?]; try congruence. apply Hsrc.
  - destruct (getOperands op) as [|source ?]; try congruence. apply Hsrc.
  - destruct (getOperands op) as [|source ?]; try congruence. apply Hsrc.
Qed.

(** One step of the chase at an operation it looks through. *)
Lemma isZeroTensorOp_transparent (fuel : nat) (op : Operation) (src : Value) :
  transparentSource op = Some src ->
  isZeroTensorOp (S fuel) (Some op)
  = orElse (isZeroTensor fuel src)
      (fun _ => isZeroTensorOp fuel
                  (getPrevUser (getDefiningOp src) (Some op))).
Proof.
  unfold transparentSource, isZeroTensor. cbn [isZeroTensorOp].
  destruct (getName op); try discriminate.
  - destruct (getInputs op) as [|input [|? ?]]; try discriminate.
    now intros [= ->].
  - destruct (getOperands op) as [|source ?]; try discriminate.
    now intros [= ->].
  - destruct (getOperands op) as [|source ?]; try discriminate.
    now intros [= ->].
  - destruct (getOperands op) as [|source ?]; try discriminate.
    now intros [= ->].
  - destruct (getOperands op) as [|source ?]; try discriminate.
    now intros [= ->].
Qed.

End WithIR.

End ZeroTensorProofs.

(** ** The element-wise matchers: static shapes and the expected pair *)
Module MatcherProofs.
Import Mlir Affine Linalg TppUtils TppUtilsNotions.

Lemma isDynamic_true (d : Z) : isDynamic d = true <-> d = kDynamic.
Proof. unfold isDynamic. apply bool_decide_eq_true. Qed.

(** [hasDynamicShape] holds exactly when an operand has a dynamic extent. *)
Lemma hasDynamicShape_true (linalgOp : LinalgOp) :
  hasDynamicShape linalgOp = true <-> hasDynamicExtent linalgOp.
Proof.
  unfold hasDynamicShape, hasDynamicExtent, getStaticShape.
  rewrite existsb_exists. split.
  - intros (d & Hin & Hd). apply isDynamic_true in Hd. subst d.
    apply in_concat in Hin as (shape & Hin & Hd).
    apply in_map_iff in Hin as (v & <- & Hv).
    destruct (getShape (getType v)) as [s|] eqn:Hs; cbn in Hd.
    + exists v, s. now rewrite !list_elem_of_In.
    + contradiction.
  - intros (v & shape & Hv & Hs & Hd).
    apply list_elem_of_In in Hv. apply list_elem_of_In in Hd.
    exists kDynamic. split; [|now apply isDynamic_true].
    apply in_concat. exists shape. split; [|exact Hd].
    apply in_map_iff. exists v. split; [|exact Hv].
    now rewrite Hs.
Qed.

Lemma forallb_negb_existsb {A} (f : A -> bool) (l : list A) :
  negb (existsb (fun x => negb (f x)) l) = forallb f l.
Proof.
  induction l as [|x l IH]; [reflexivity|]. cbn.
  rewrite negb_orb, negb_involutive, IH. reflexivity.
Qed.

Lemma isScalarOpOrYield_eq isOP (op : Operation) :
  negb (negb (isOP (getName op) || isaYield (getName op))
        || existsb (fun ty => negb (isIntOrFloat ty)) (getResultTypes op))
  = isScalarOpOrYield isOP op.
Proof.
  unfold isScalarOpOrYield.
  now rewrite negb_orb, negb_involutive, forallb_negb_existsb.
Qed.

(** [hasOnlyScalarElementwiseOp] accepts a region exactly when it is one
    block of two operations, each the expected operation or the yield with
    results of integer or float type. *)
Lemma hasOnlyScalarElementwiseOp_true isOP (r : Region) :
  hasOnlyScalarElementwiseOp isOP r = true
  <-> exists front a b, r = [front] /\ blockOps front = [a; b]
        /\ isScalarOpOrYield isOP a = true
        /\ isScalarOpOrYield isOP b = true.
Proof.
  unfold hasOnlyScalarElementwiseOp.
  destruct r as [|front [|? ?]].
  - split; [discriminate|]. now intros (? & ? & ? & ? & _).
  - destruct (blockOps front) as [|a [|b [|c ops]]] eqn:Hops; cbn.
    + split; [discriminate|]. intros (? & ? & ? & [= <-] & Hb & _).
      congruence.
    + split; [discriminate|]. intros (? & ? & ? & [= <-] & Hb & _).
      congruence.
    + rewrite !isScalarOpOrYield_eq, andb_true_r, andb_true_iff. split.
      * intros [Ha Hb]. exists front, a, b. now repeat split.
      * intros (? & ? & ? & [= <-] & Hb & ? & ?).
        rewrite Hops in Hb. injection Hb as <- <-. now split.
    + split; [discriminate|]. intros (? & ? & ? & [= <-] & Hb & _).
      congruence.
  - split; [discriminate|]. now intros (? & ? & ? & ? & _).
Qed.

Lemma hasOnlyScalarElementwiseOp_pair isOP (linalgOp : LinalgOp) :
  hasOnlyScalarElementwiseOp isOP (region linalgOp) = true ->
  isExpectedPair isOP linalgOp.
Proof.
  intros (front & a & b & Hr & Hops & Ha & Hb)
    %hasOnlyScalarElementwiseOp_true.
  exists a, b. unfold bodyOps. rewrite Hr, Hops. now repeat split.
Qed.

Lemma hasOnlyScalarElementwiseOp_extra isOP (linalgOp : LinalgOp) ops :
  bodyOps linalgOp = Some ops -> (2 < length ops)%nat ->
  hasOnlyScalarElementwiseOp isOP (region linalgOp) = false.
Proof.
  intros Hbody Hlen.
  destruct (hasOnlyScalarElementwiseOp isOP (region linalgOp)) eqn:E;
    [|reflexivity].
  apply hasOnlyScalarElementwiseOp_pair in E as (a & b & Hab & _).
  rewrite Hbody in Hab. injection Hab as ->. cbn in Hlen. lia.
Qed.

Lemma withShape_default (f : list Z -> list Z) (tys : list MType)
    (i : nat) :
  default OpaqueType (map (withShape f) tys !! i)
  = withShape f (default OpaqueType (tys !! i)).
Proof.
  change (map (withShape f) tys) with (withShape f <$> tys).
  rewrite list_lookup_fmap. now destruct (tys !! i).
Qed.

(** Replacing the extents changes the type of a value in its shape only. *)
Lemma getType_retype (f : list Z -> list Z) (v : Value) :
  getType (retype f v) = withShape f (getType v).
Proof.
  destruct v as [owner argNumber ty|[id name operands k tys nested] i];
    [reflexivity|].
  apply withShape_default.
Qed.

Lemma isScalar_retype (f : list Z -> list Z) (v : Value) :
  isScalar (retype f v) = isScalar v.
Proof.
  unfold isScalar. rewrite getType_retype. now destruct (getType v).
Qed.

Lemma getOperands_withExtents (f : list Z -> list Z) (linalgOp : LinalgOp) :
  getOperands (operation (withExtents f linalgOp))
  = map (retype f) (getOperands (operation linalgOp)).
Proof.
  unfold withExtents. now destruct (operation linalgOp).
Qed.

Lemma iteratorTypes_withExtents (f : list Z -> list Z) (linalgOp : LinalgOp) :
  iteratorTypes (withExtents f linalgOp) = iteratorTypes linalgOp.
Proof. unfold withExtents. now destruct (operation linalgOp). Qed.

Lemma indexingMaps_withExtents (f : list Z -> list Z) (linalgOp : LinalgOp) :
  indexingMaps (withExtents f linalgOp) = indexingMaps linalgOp.
Proof. unfold withExtents. now destruct (operation linalgOp). Qed.

Lemma region_withExtents (f : list Z -> list Z) (linalgOp : LinalgOp) :
  region (withExtents f linalgOp) = region linalgOp.
Proof. unfold withExtents. now destruct (operation linalgOp). Qed.

Lemma getNumLoops_withExtents (f : list Z -> list Z) (linalgOp : LinalgOp) :
  getNumLoops (withExtents f linalgOp) = getNumLoops linalgOp.
Proof. unfold getNumLoops. now rewrite iteratorTypes_withExtents. Qed.

Lemma getNumParallelLoops_withExtents (f : list Z -> list Z)
    (linalgOp : LinalgOp) :
  getNumParallelLoops (withExtents f linalgOp) = getNumParallelLoops linalgOp.
Proof.
  unfold getNumParallelLoops. now rewrite iteratorTypes_withExtents.
Qed.

Lemma getNumOperands_withExtents (f : list Z -> list Z)
    (linalgOp : LinalgOp) :
  getNumOperands (operation (withExtents f linalgOp))
  = getNumOperands (operation linalgOp).
Proof.
  unfold getNumOperands. rewrite getOperands_withExtents.
  apply length_map.
Qed.

Lemma getNumDpsInputs_withExtents (f : list Z -> list Z)
    (linalgOp : LinalgOp) :
  getNumDpsInputs (withExtents f linalgOp) = getNumDpsInputs linalgOp.
Proof.
  unfold getNumDpsInputs, getDpsInputs, withExtents.
  destruct (operation linalgOp) as [id name operands k tys nested]. cbn.
  now rewrite !length_take, length_map.
Qed.

Lemma getNumDpsInits_withExtents (f : list Z -> list Z)
    (linalgOp : LinalgOp) :
  getNumDpsInits (withExtents f linalgOp) = getNumDpsInits linalgOp.
Proof.
  unfold getNumDpsInits, getDpsInits, withExtents.
  destruct (operation linalgOp) as [id name operands k tys nested]. cbn.
  now rewrite !length_drop, length_map.
Qed.

Lemma hasTensorSemantics_withExtents (f : list Z -> list Z)
    (linalgOp : LinalgOp) :
  hasTensorSemantics (withExtents f linalgOp) = hasTensorSemantics linalgOp.
Proof.
  unfold hasTensorSemantics. rewrite getOperands_withExtents.
  induction (getOperands (operation linalgOp)) as [|v vs IH];
    [reflexivity|].
  cbn. rewrite IH, isScalar_retype, getType_retype.
  now destruct (getType v).
Qed.

Section WithIR.
Context `{IRQueries}.

(** C8 (amended).  An operation with a dynamic extent is rejected by
    [canMapToTppAdd], [canMapToTppRelu] and [canMapToTppIdentity].
    [isTppMatmul], [isTppAdd], [isTppRelu] and [isTppIdentity] do not look
    at the extents: each gives the same result when the extents of the
    operand types are replaced by any others, and replacing them by dynamic
    ones gives an operation with a dynamic extent as soon as one operand
    has a shape of rank 1 or more. *)
Theorem canMapToTpp_rejects_dynamic_shape (linalgOp : LinalgOp)
    (fuel : nat) :
  (hasDynamicExtent linalgOp ->
   canMapToTppAdd linalgOp = false
   /\ canMapToTppRelu fuel linalgOp = Some false
   /\ canMapToTppIdentity linalgOp = false)
  /\ (forall f,
        isTppMatmul (withExtents f linalgOp) = isTppMatmul linalgOp
        /\ isTppAdd (withExtents f linalgOp) = isTppAdd linalgOp
        /\ isTppRelu (withExtents f linalgOp) = isTppRelu linalgOp
        /\ isTppIdentity (withExtents f linalgOp) = isTppIdentity linalgOp)
  /\ (forall v shape,
        v ∈ getOperands (operation linalgOp) ->
        getShape (getType v) = Some shape -> shape <> [] ->
        hasDynamicExtent (withExtents allDynamic linalgOp)).
Proof.
  repeat apply conj.
  - intros Hdyn%hasDynamicShape_true.
    unfold canMapToTppAdd, canMapToTppRelu, canMapToTppIdentity,
      hasStaticShape.
    rewrite Hdyn. cbn.
    destruct (isElementwise linalgOp); repeat split; reflexivity.
  - intros f. repeat apply conj.
    + unfold isTppMatmul, hasMatmulBody, getIteratorTypesArray,
        getIndexingMapsArray, getNumRegions.
      now rewrite iteratorTypes_withExtents, indexingMaps_withExtents,
        region_withExtents.
    + unfold isTppAdd.
      now rewrite getNumLoops_withExtents, getNumParallelLoops_withExtents,
        getNumDpsInputs_withExtents, getNumDpsInits_withExtents,
        hasTensorSemantics_withExtents, region_withExtents.
    + unfold isTppRelu.
      now rewrite getNumLoops_withExtents, getNumParallelLoops_withExtents,
        getNumDpsInputs_withExtents, getNumDpsInits_withExtents,
        hasTensorSemantics_withExtents, region_withExtents.
    + unfold isTppIdentity, hasCopySemantics.
      now rewrite getNumLoops_withExtents, getNumParallelLoops_withExtents,
        getNumDpsInputs_withExtents, getNumDpsInits_withExtents,
        hasTensorSemantics_withExtents, region_withExtents,
        getNumOperands_withExtents.
  - intros v shape Hv Hshape Hne.
    exists (retype allDynamic v), (allDynamic shape). repeat split.
    + rewrite getOperands_withExtents. now apply list_elem_of_fmap_2.
    + rewrite getType_retype.
      destruct (getType v); cbn in *; congruence.
    + destruct shape as [|d shape]; [contradiction|]. cbn. left.
Qed.


End WithIR.

(** The addition on buffers with a dynamic extent; the addition on static
    4x8 buffers with every extent made dynamic. *)
Lemma canMapToTpp_rejects_dynamic_shape_witness :
  (hasDynamicExtent dynamicAdd
   /\ @canMapToTppAdd isolatedIR dynamicAdd = false
   /\ @canMapToTppRelu isolatedIR 1 dynamicAdd = Some false
   /\ @canMapToTppIdentity isolatedIR dynamicAdd = false)
  /\ (hasDynamicExtent (withExtents allDynamic staticAdd)
      /\ isTppAdd (withExtents allDynamic staticAdd) = isTppAdd staticAdd).
Proof.
  destruct (@canMapToTpp_rejects_dynamic_shape isolatedIR dynamicAdd 1)
    as (Hrejects & _).
  destruct (@canMapToTpp_rejects_dynamic_shape isolatedIR staticAdd 1)
    as (_ & Hsame & Hdynamic).
  assert (Hdyn : hasDynamicExtent dynamicAdd)
    by (apply hasDynamicShape_true; reflexivity).
  split.
  - split; [exact Hdyn|exact (Hrejects Hdyn)].
  - split.
    + apply (Hdynamic (memrefArg 0 4 8) [4; 8]);
        [left|reflexivity|discriminate].
    + apply Hsame.
Defined.

(** The claim as stated fails: [isTppAdd], [isTppRelu], [isTppIdentity] and
    [isTppMatmul] accept operations on buffers of type [memref<?x8xf32>]
    (and [memref<?x16xf32>]). *)
Lemma isTpp_matchers_accept_dynamic_shape :
  (hasDynamicExtent dynamicAdd /\ isTppAdd dynamicAdd = true)
  /\ (hasDynamicExtent dynamicRelu /\ isTppRelu dynamicRelu = true)
  /\ (hasDynamicExtent dynamicIdentity
      /\ isTppIdentity dynamicIdentity = true)
  /\ (hasDynamicExtent dynamicMatmul /\ isTppMatmul dynamicMatmul = true).
Proof.
  repeat apply conj; try reflexivity;
    apply hasDynamicShape_true; reflexivity.
Qed.


End MatcherProofs.

(** ** Packing and unpacking *)
Module PackProofs.
Import LinalgX.

(** A list of distinct positions below its length names every one of
    them. *)
Lemma permutation_vector_complete (perm : list nat) (q : nat) :
  NoDup perm -> Forall (fun p => (p < length perm)%nat) perm ->
  (q < length perm)%nat -> q ∈ perm.
Proof.
  intros Hnd Hlt Hq.
  assert (Hsub : perm ⊆+ seq 0 (length perm)).
  { apply NoDup_submseteq; [exact Hnd|].
    intros x Hx. apply elem_of_seq.
    rewrite Forall_forall in Hlt. specialize (Hlt x Hx). lia. }
  apply submseteq_length_Permutation in Hsub; [|now rewrite length_seq].
  rewrite Hsub. apply elem_of_seq. lia.
Qed.

Section Interchange.
Context {A : Type}.
Implicit Types l : list A.

Lemma length_interchange perm l : length (interchange perm l) = length l.
Proof. apply length_imap. Qed.

Lemma length_undoInterchange perm l :
  length (undoInterchange perm l) = length l.
Proof. apply length_imap. Qed.

Lemma lookup_interchange perm l i x :
  l !! i = Some x ->
  interchange perm l !! i
  = Some (match perm !! i with
          | Some p => default x (l !! p)
          | None => x
          end).
Proof.
  intros Hx. unfold interchange. now rewrite list_lookup_imap, Hx.
Qed.

(** [undoInterchange] undoes [interchange]. *)
Lemma undoInterchange_interchange perm l :
  NoDup perm -> Forall (fun p => (p < length perm)%nat) perm ->
  (length perm <= length l)%nat ->
  undoInterchange perm (interchange perm l) = l.
Proof.
  intros Hnd Hlt Hlen. apply list_eq. intros q.
  unfold undoInterchange. rewrite list_lookup_imap.
  destruct (l !! q) as [x|] eqn:Hq.
  - rewrite (lookup_interchange _ _ _ _ Hq). cbn.
    destruct (list_find (fun p => p = q) perm) as [[i q']|] eqn:Hfind.
    + apply list_find_Some in Hfind as (Hi & -> & _).
      assert (Hil : (i < length l)%nat).
      { apply lookup_lt_Some in Hi. lia. }
      destruct (lookup_lt_is_Some_2 _ _ Hil) as [xi Hxi].
      rewrite (lookup_interchange _ _ _ _ Hxi), Hi, Hq. reflexivity.
    + apply list_find_None in Hfind.
      destruct (perm !! q) as [p|] eqn:Hp; [|reflexivity].
      exfalso. apply lookup_lt_Some in Hp.
      pose proof (permutation_vector_complete _ _ Hnd Hlt Hp) as Hin.
      rewrite Forall_forall in Hfind. now apply (Hfind q Hin).
  - rewrite lookup_ge_None_2; [reflexivity|].
    rewrite length_interchange. now apply lookup_ge_None.
Qed.

End Interchange.

(** The tile of a tiled dimension sits in the descriptor at the place the
    mapping names. *)
Lemma getDimAndTileMapping_Some D d j t :
  getDimAndTileMapping D d = Some (j, t) ->
  inner_dims_pos D !! j = Some d /\ inner_tiles D !! j = Some t.
Proof.
  unfold getDimAndTileMapping.
  destruct (list_find _ _) as [[j' d']|] eqn:Hfind; [|discriminate].
  apply list_find_Some in Hfind as (Hj & -> & _).
  destruct (inner_tiles D !! j') as [t'|] eqn:Ht; [|discriminate].
  now intros [= <- <-].
Qed.

Lemma getDimAndTileMapping_positive rank D d j t :
  validDescriptor rank D -> getDimAndTileMapping D d = Some (j, t) ->
  0 < tileValue t.
Proof.
  intros (_ & _ & _ & Hpos & _) (_ & Ht)%getDimAndTileMapping_Some.
  rewrite Forall_forall in Hpos. apply Hpos.
  apply list_elem_of_lookup. eauto.
Qed.

Lemma imap_imap {A B C} (f : nat -> B -> C) (g : nat -> A -> B)
    (l : list A) :
  imap f (imap g l) = imap (fun i x => f i (g i x)) l.
Proof.
  apply list_eq. intros i. rewrite !list_lookup_imap.
  now destruct (l !! i).
Qed.

Lemma imap_id_on {A} (f : nat -> A -> A) (l : list A) :
  (forall i x, l !! i = Some x -> f i x = x) -> imap f l = l.
Proof.
  intros Hf. apply list_eq. intros i. rewrite list_lookup_imap.
  destruct (l !! i) as [x|] eqn:Hx; [|reflexivity].
  cbn. now rewrite (Hf i x Hx).
Qed.

Lemma length_getPackedType D pad src :
  length (getPackedType D pad src)
  = (length src + length (inner_tiles D))%nat.
Proof.
  unfold getPackedType.
  now rewrite length_app, length_interchange, length_imap, length_fmap.
Qed.

(** What unpacking reconstructs from the packed shape: every tiled extent
    divided, rounding up, and multiplied again by its tile size. *)
Lemma inferUnpackedType_getPackedType D pad src :
  validDescriptor (length src) D ->
  inferUnpackedType D (getPackedType D pad src)
  = imap (fun d e => match getDimAndTileMapping D d with
                     | Some (_, t) => untiledExtent (tiledExtent pad e t) t
                     | None => e
                     end) src.
Proof.
  intros (_ & _ & _ & _ & Hlen & Hlt & Hnd).
  unfold inferUnpackedType. rewrite length_getPackedType.
  replace (length src + length (inner_tiles D) - length (inner_tiles D))%nat
    with (length src) by lia.
  unfold getPackedType.
  rewrite take_app_length' by now rewrite length_interchange, length_imap.
  rewrite undoInterchange_interchange by (now rewrite ?length_imap).
  rewrite imap_imap. apply imap_ext. intros d e _.
  now destruct (getDimAndTileMapping D d) as [[j t]|].
Qed.

Lemma divideExtent_exact (pad : bool) (n t : Z) :
  0 < t -> n mod t = 0 -> divideExtent pad n t * t = n.
Proof.
  intros Ht Hmod. unfold divideExtent, ceilDiv.
  apply Z.mod_divide in Hmod as [q ->]; [|lia].
  destruct pad.
  - replace (q * t + t - 1) with (t - 1 + q * t) by lia.
    rewrite Z.div_add by lia. rewrite Z.div_small by lia. lia.
  - rewrite Z.div_mul by lia. reflexivity.
Qed.

Lemma tilesDivide_lookup D src d n j t :
  tilesDivide D src = true -> src !! d = Some (Known n) ->
  getDimAndTileMapping D d = Some (j, Constant t) -> n mod t = 0.
Proof.
  unfold tilesDivide. rewrite forallb_forall. intros Hall Hd Hmap.
  specialize (Hall (d, Known n)). cbn in Hall. rewrite Hmap in Hall.
  apply Z.eqb_eq, Hall, list_elem_of_In.
  apply (elem_of_lookup_imap_2 (fun d e => (d, e)) _ _ _ Hd).
Qed.

(** The index of an element is recovered from where [pack] puts it. *)
Lemma sourceIndex_packedIndex D (x : list Z) :
  validDescriptor (length x) D ->
  sourceIndex D (packedIndex D x) = x.
Proof.
  intros Hvalid.
  pose proof Hvalid as (Hsame & _ & _ & _ & Hlen & Hlt & Hnd).
  unfold sourceIndex.
  assert (Hrank : (length (packedIndex D x) - length (inner_tiles D))%nat
                  = length x).
  { unfold packedIndex.
    rewrite length_app, length_interchange, length_imap, length_fmap.
    rewrite length_zip_with_l_eq by exact Hsame. lia. }
  rewrite Hrank. unfold packedIndex.
  rewrite take_app_length' by now rewrite length_interchange, length_imap.
  rewrite drop_app_length' by now rewrite length_interchange, length_imap.
  rewrite undoInterchange_interchange by (now rewrite ?length_imap).
  rewrite imap_imap. apply imap_id_on. intros d xd Hd.
  destruct (getDimAndTileMapping D d) as [[j t]|] eqn:Hmap; [|reflexivity].
  pose proof (getDimAndTileMapping_positive _ _ _ _ _ Hvalid Hmap) as Hpos.
  apply getDimAndTileMapping_Some in Hmap as [Hj Ht].
  rewrite list_lookup_fmap, lookup_zip_with, Hj, Ht. cbn. rewrite Hd. cbn.
  pose proof (Z.div_mod xd (tileValue t)). lia.
Qed.

Lemma lookup_getPackedType_outer D pad src i ed :
  (i < length src)%nat -> src !! sourceDimOf D i = Some ed ->
  getPackedType D pad src !! i
  = Some (match getDimAndTileMapping D (sourceDimOf D i) with
          | Some (_, t) => tiledExtent pad ed t
          | None => ed
          end).
Proof.
  intros Hi Hd. unfold getPackedType, sourceDimOf in *.
  rewrite lookup_app_l by now rewrite length_interchange, length_imap.
  destruct (lookup_lt_is_Some_2 _ _ Hi) as [ei Hei].
  erewrite lookup_interchange
    by (rewrite list_lookup_imap, Hei; reflexivity).
  destruct (outer_dims_perm D !! i) as [p|]; cbn in Hd |- *.
  - rewrite list_lookup_imap, Hd. cbn.
    now destruct (getDimAndTileMapping D p) as [[j t]|].
  - rewrite Hei in Hd. injection Hd as ->.
    now destruct (getDimAndTileMapping D i) as [[j t]|].
Qed.

Lemma lookup_getPackedType_inner D pad src j :
  getPackedType D pad src !! (length src + j)%nat
  = tileExtent <$> inner_tiles D !! j.
Proof.
  unfold getPackedType.
  rewrite lookup_app_r by (rewrite length_interchange, length_imap; lia).
  rewrite length_interchange, length_imap, list_lookup_fmap.
  now replace (length src + j - length src)%nat with j by lia.
Qed.




(** C5 (amended).  Packing 13x15 with inner tiles [8, 2], no outer
    permutation and a padding value gives the static shape 2x8x8x2.  For
    every pack with a padding value, the outer extents are the input
    extents, each tiled one divided by its tile size rounding up, with the
    tile sizes appended at the tail in the order of [inner_dims_pos]; and
    an outer dimension of the result is dynamic exactly when the input
    dimension it is made from is dynamic or is tiled with a runtime tile
    size. *)
Theorem pack_with_padding_shape :
  (verifyPack NC_to_NCnc true [Known 13; Known 15]
   /\ getPackedType NC_to_NCnc true [Known 13; Known 15]
      = [Known 2; Known 8; Known 8; Known 2])
  /\ (forall D src, verifyPack D true src ->
        (forall i ed, (i < length src)%nat ->
           src !! sourceDimOf D i = Some ed ->
           exists e, getPackedType D true src !! i = Some e
             /\ e = match getDimAndTileMapping D (sourceDimOf D i) with
                    | Some (_, t) => tiledExtent true ed t
                    | None => ed
                    end
             /\ isDynamicExtent e
                = isDynamicExtent ed || tiledByRuntime D (sourceDimOf D i))
        /\ (forall j, getPackedType D true src !! (length src + j)%nat
                      = tileExtent <$> inner_tiles D !! j)).
Proof.
  split.
  - split; [|reflexivity].
    split; [refine (bool_decide_eq_true_1 _ _); reflexivity|discriminate].
  - intros D src _. split; [|apply lookup_getPackedType_inner].
    intros i ed Hi Hd. eexists. split; [|split; [reflexivity|]].
    + now apply lookup_getPackedType_outer.
    + unfold tiledByRuntime.
      destruct (getDimAndTileMapping D (sourceDimOf D i)) as [[j [t|t]]|];
        destruct ed; reflexivity.
Qed.

(** A dynamic first extent: [?x15] packs into [?x8x8x2]. *)
Lemma pack_with_padding_shape_witness :
  verifyPack NC_to_NCnc true [Dynamic; Known 15]
  /\ getPackedType NC_to_NCnc true [Dynamic; Known 15] !! 0%nat = Some Dynamic
  /\ getPackedType NC_to_NCnc true [Dynamic; Known 15] !! 1%nat = Some (Known 8).
Proof.
  assert (Hv : verifyPack NC_to_NCnc true [Dynamic; Known 15]).
  { split; [refine (bool_decide_eq_true_1 _ _); reflexivity|discriminate]. }
  split; [exact Hv|].
  destruct (proj2 pack_with_padding_shape NC_to_NCnc [Dynamic; Known 15] Hv)
    as [Houter _].
  split.
  - destruct (Houter 0%nat Dynamic ltac:(cbn; lia) eq_refl)
      as (e & -> & -> & _). reflexivity.
  - destruct (Houter 1%nat (Known 15) ltac:(cbn; lia) eq_refl)
      as (e & -> & -> & _). reflexivity.
Defined.

(** The claim as stated fails for a runtime tile size: the static 13x15
    input packs into [?x8x?x2], whose first dimension is dynamic although
    the first dimension of the input is not. *)
Lemma runtime_tile_makes_static_dimension_dynamic :
  verifyPack NC_to_NCnc_runtime true [Known 13; Known 15]
  /\ getPackedType NC_to_NCnc_runtime true [Known 13; Known 15]
     = [Dynamic; Known 8; Dynamic; Known 2]
  /\ sourceDimOf NC_to_NCnc_runtime 0 = 0%nat
  /\ (isDynamicExtent <$> getPackedType NC_to_NCnc_runtime true
                            [Known 13; Known 15] !! 0%nat) = Some true
  /\ (isDynamicExtent <$> [Known 13; Known 15] !! 0%nat) = Some false.
Proof.
  split; [|repeat split; reflexivity].
  split; [refine (bool_decide_eq_true_1 _ _); reflexivity|discriminate].
Qed.

End PackProofs.

(** ** Further properties of lib/TPP/Dialect/Tpp/TppUtils.cpp *)
Module TppUtilsFacts.
Import Mlir Affine Linalg TppUtils TppUtilsNotions.

Lemma getSingleOpLoop_instances isOpType (ops : list Operation) res :
  getSingleOpLoop isOpType ops res
  = match res, instancesOf isOpType ops with
    | None, [op] => Some op
    | Some r, [] => Some r
    | _, _ => None
    end.
Proof.
  unfold instancesOf.
  revert res. induction ops as [|op ops IH]; intros res.
  - now destruct res.
  - cbn. destruct (isOpType (getName op)).
    + destruct res; [reflexivity|].
      rewrite IH. now destruct (List.filter _ ops).
    + apply IH.
Qed.

Lemma getSingleOpOfType_Some isOpType (block : Block) (op : Operation) :
  getSingleOpOfType isOpType block = Some op ->
  instancesOf isOpType (walk block) = [op].
Proof.
  unfold getSingleOpOfType. rewrite getSingleOpLoop_instances.
  destruct (instancesOf isOpType (walk block)) as [|x [|y l]];
    try discriminate.
  now intros [= ->].
Qed.

(** X1.  [getSingleOpOfType] gives an operation exactly when it is the only
    instance of the type in the block, nested regions included; with no
    instance or with several it gives null. *)
Theorem getSingleOpOfType_unique isOpType (block : Block) :
  (forall op, getSingleOpOfType isOpType block = Some op
     <-> instancesOf isOpType (walk block) = [op])
  /\ (getSingleOpOfType isOpType block = None
      <-> length (instancesOf isOpType (walk block)) <> 1%nat).
Proof.
  unfold getSingleOpOfType. rewrite getSingleOpLoop_instances.
  destruct (instancesOf isOpType (walk block)) as [|x [|y l]]; cbn.
  - split; [split; discriminate|]. split; [lia|reflexivity].
  - split; [split; now intros [= ->]|]. split; [discriminate|lia].
  - split; [split; discriminate|]. split; [lia|reflexivity].
Qed.

Section WithIR.
Context `{IRQueries}.

Lemma prevUserLoop_Some (users : list Operation) (c p : Operation) :
  prevUserLoop users c = Some p
  <-> exists pre c' post, users = pre ++ c' :: p :: post
        /\ opEq c' c = true
        /\ Forall (fun u => opEq u c = false) pre.
Proof.
  induction users as [|u users IH]; cbn.
  - split; [discriminate|]. intros (pre & c' & post & Hu & _).
    now destruct pre.
  - destruct (opEq u c) eqn:Hu.
    + split.
      * destruct users as [|p' users']; [discriminate|]. intros [= ->].
        exists [], u, users'. now repeat split.
      * intros ([|u' pre] & c' & post & Heq & Hc & Hpre).
        -- now injection Heq as -> ->.
        -- injection Heq as -> ->. apply Forall_cons in Hpre as [Hpre _].
           congruence.
    + rewrite IH. split.
      * intros (pre & c' & post & -> & Hc & Hpre).
        exists (u :: pre), c', post. repeat split; [exact Hc|].
        now constructor.
      * intros ([|u' pre] & c' & post & Heq & Hc & Hpre).
        -- injection Heq as -> ->. congruence.
        -- injection Heq as -> ->. apply Forall_cons in Hpre as [_ Hpre].
           eauto 6.
Qed.

Lemma prevUserLoop_not_user (users : list Operation) (c : Operation) :
  Forall (fun u => opEq u c = false) users -> prevUserLoop users c = None.
Proof.
  induction 1 as [|u users Hu _ IH]; [reflexivity|]. cbn. now rewrite Hu.
Qed.

(** X2.  [getPrevUser] gives the user that comes right after the first
    occurrence of the current user in the user list; it gives null when the
    operation or the current user is null, when the current user is not a
    user of the operation, and when it is the last one in the list. *)
Theorem getPrevUser_next_in_use_list (o c : Operation) :
  (forall p, getPrevUser (Some o) (Some c) = Some p
     <-> exists pre c' post, getUsers o = pre ++ c' :: p :: post
           /\ opEq c' c = true
           /\ Forall (fun u => opEq u c = false) pre)
  /\ (Forall (fun u => opEq u c = false) (getUsers o) ->
      getPrevUser (Some o) (Some c) = None)
  /\ (forall pre c', getUsers o = pre ++ [c'] ->
        Forall (fun u => opEq u c = false) pre ->
        getPrevUser (Some o) (Some c) = None)
  /\ getPrevUser None (Some c) = None
  /\ getPrevUser (Some o) None = None.
Proof.
  repeat apply conj; try reflexivity.
  - intros p. apply prevUserLoop_Some.
  - apply prevUserLoop_not_user.
  - intros pre c' Husers Hpre. cbn. rewrite Husers. clear Husers.
    induction Hpre as [|u pre Hu _ IH]; cbn.
    + now destruct (opEq c' c).
    + now rewrite Hu.
Qed.

End WithIR.

(** The single [arith.addf] of the matmul body over dynamic buffers. *)
Lemma getSingleOpOfType_unique_witness :
  getSingleOpOfType isaAddF
    {| blockId := 1; blockArgTypes := [f32; f32; f32];
       blockOps := [mulfOp; maccOp; yieldOp 12 (OpResult maccOp 0)] |}
  = Some maccOp.
Proof. apply (proj1 (getSingleOpOfType_unique _ _)). reflexivity. Defined.

(** The copy of the buffer is preceded by its fill. *)
Lemma getPrevUser_next_in_use_list_witness :
  @getPrevUser filledThenCopied (Some allocOp) (Some copyOfAlloc)
  = Some fillOfAlloc
  /\ @getPrevUser filledThenCopied (Some allocOp) (Some fillOfAlloc) = None
  /\ @getPrevUser filledThenCopied (Some allocOp) (Some zeroConstant) = None.
Proof.
  split; [|split].
  - apply (proj1 (@getPrevUser_next_in_use_list filledThenCopied
                    allocOp copyOfAlloc)).
    exists [], copyOfAlloc, []. repeat split. constructor.
  - apply (proj1 (proj2 (proj2 (@getPrevUser_next_in_use_list
                                  filledThenCopied allocOp fillOfAlloc)))
             [copyOfAlloc] fillOfAlloc eq_refl).
    repeat constructor.
  - apply (proj1 (proj2 (@getPrevUser_next_in_use_list filledThenCopied
                           allocOp zeroConstant))).
    repeat constructor.
Defined.

(** X3.  Whatever facet of the body [isAddMul] lets through, [isTppMatmul] holds
    only for the iterators [parallel, parallel, reduction], the canonical
    maps, and a single-block body with three arguments whose terminator
    yields one value and that holds exactly one [arith.addf] and one
    [arith.mulf], or exactly one [arith.addi] and one [arith.muli]. *)
Theorem isTppMatmul_necessary (linalgOp : LinalgOp) :
  isTppMatmul linalgOp = true ->
  iteratorTypes linalgOp = [parallel; parallel; reduction]
  /\ indexingMaps linalgOp = matmulMaps
  /\ exists front terminator res,
       region linalgOp = [front]
       /\ getNumArguments front = 3%nat
       /\ last (blockOps front) = Some terminator
       /\ getOperands terminator = [res]
       /\ ((exists addOp mulOp,
              instancesOf isaAddF (walk front) = [addOp]
              /\ instancesOf isaMulF (walk front) = [mulOp])
           \/ (exists addOp mulOp,
                 instancesOf isaAddI (walk front) = [addOp]
                 /\ instancesOf isaMulI (walk front) = [mulOp])).
Proof.
  intros Hm.
  destruct (MatmulProofs.isTppMatmul_iterators_and_maps _ Hm) as [Hit Hmaps].
  split; [exact Hit|]. split; [exact Hmaps|].
  unfold isTppMatmul, getIteratorTypesArray, getIndexingMapsArray in Hm.
  rewrite Hit, Hmaps in Hm. cbn [length Nat.eqb negb] in Hm.
  rewrite bool_decide_eq_true_2 in Hm by reflexivity.
  replace (isParallelIterator parallel && isParallelIterator parallel
           && isReductionIterator reduction) with true in Hm by reflexivity.
  cbn [negb] in Hm. unfold hasMatmulBody in Hm. cbn in Hm.
  destruct (region linalgOp) as [|front [|? ?]]; try discriminate.
  assert (Hone : forall isAdd isMul,
    isAddMul isAdd isMul front = true ->
    getNumArguments front = 3%nat
    /\ exists terminator res addOp mulOp,
         last (blockOps front) = Some terminator
         /\ getOperands terminator = [res]
         /\ instancesOf isAdd (walk front) = [addOp]
         /\ instancesOf isMul (walk front) = [mulOp]).
  { intros isAdd isMul. unfold isAddMul.
    destruct (Nat.eqb_spec (getNumArguments front) 3); [|discriminate].
    cbn [negb].
    destruct (last (blockOps front)) as [y|]; [|discriminate].
    destruct (getOperands y) as [|res [|? ?]] eqn:Hy; try discriminate.
    destruct (getSingleOpOfType isAdd front) as [addOp|] eqn:Ha;
      [|discriminate].
    destruct (getSingleOpOfType isMul front) as [mulOp|] eqn:Hmul;
      [|discriminate].
    intros _. split; [assumption|].
    apply getSingleOpOfType_Some in Ha, Hmul.
    exists y, res, addOp, mulOp. now repeat split. }
  apply orb_true_iff in Hm as [Hf|Hi].
  - destruct (Hone _ _ Hf) as (Hargs & y & res & a & mu & Hl & Hy & Ha & Hmu).
    exists front, y, res. repeat split; try assumption. left. eauto.
  - destruct (Hone _ _ Hi) as (Hargs & y & res & a & mu & Hl & Hy & Ha & Hmu).
    exists front, y, res. repeat split; try assumption. right. eauto.
Qed.

Lemma isTppMatmul_necessary_witness :
  isTppMatmul dynamicMatmul = true
  /\ iteratorTypes dynamicMatmul = [parallel; parallel; reduction].
Proof.
  assert (Hm : isTppMatmul dynamicMatmul = true) by reflexivity.
  split; [exact Hm|].
  exact (proj1 (isTppMatmul_necessary dynamicMatmul Hm)).
Defined.



Lemma getNumParallelLoops_matmul (linalgOp : LinalgOp) :
  iteratorTypes linalgOp = [parallel; parallel; reduction] ->
  (getNumLoops linalgOp =? getNumParallelLoops linalgOp)%nat = false.
Proof.
  unfold getNumLoops, getNumParallelLoops. now intros ->.
Qed.

Lemma hasOnlyScalarElementwiseOp_length isOP (linalgOp : LinalgOp) :
  hasOnlyScalarElementwiseOp isOP (region linalgOp) = true ->
  exists front, region linalgOp = [front]
                /\ length (blockOps front) = 2%nat.
Proof.
  intros (front & a & b & Hr & Hops & _)
    %MatcherProofs.hasOnlyScalarElementwiseOp_true.
  exists front. now rewrite Hops.
Qed.

Lemma hasCopySemantics_length (linalgOp : LinalgOp) :
  hasCopySemantics linalgOp = true ->
  exists front, region linalgOp = [front]
                /\ length (blockOps front) = 1%nat.
Proof.
  unfold hasCopySemantics, hasOnlyYieldOp.
  destruct (negb _); [discriminate|].
  destruct (_ || _); [discriminate|].
  destruct (region linalgOp) as [|front [|? ?]]; try discriminate.
  intros Hlen%Nat.eqb_eq. eauto.
Qed.

(** X5.  At most one of [isTppMatmul], [isTppAdd], [isTppRelu] and
    [isTppIdentity] accepts a given operation. *)
Theorem isTpp_matchers_exclusive (linalgOp : LinalgOp) :
  (isTppMatmul linalgOp = true ->
   isTppAdd linalgOp = false /\ isTppRelu linalgOp = false
   /\ isTppIdentity linalgOp = false)
  /\ (isTppAdd linalgOp = true ->
      isTppRelu linalgOp = false /\ isTppIdentity linalgOp = false)
  /\ (isTppRelu linalgOp = true -> isTppIdentity linalgOp = false).
Proof.
  repeat apply conj.
  - intros [Hit _]%MatmulProofs.isTppMatmul_iterators_and_maps.
    apply getNumParallelLoops_matmul in Hit.
    unfold isTppAdd, isTppRelu, isTppIdentity. now rewrite Hit.
  - intros Hadd. unfold isTppAdd in Hadd.
    destruct (getNumLoops linalgOp =? getNumParallelLoops linalgOp)%nat
      eqn:Hloops; [|discriminate]. cbn [negb] in Hadd.
    destruct (Nat.eqb_spec (getNumDpsInputs linalgOp) 1) as [Hin|];
      [|discriminate].
    destruct (getNumDpsInits linalgOp =? 1)%nat; [|discriminate].
    cbn in Hadd.
    destruct (hasTensorSemantics linalgOp) eqn:Hts; [discriminate|].
    apply hasOnlyScalarElementwiseOp_length in Hadd as (front & Hr & Hlen).
    split.
    + unfold isTppRelu. rewrite Hloops, Hin. reflexivity.
    + unfold isTppIdentity. rewrite Hloops, Hin, Hts. cbn.
      destruct (hasCopySemantics linalgOp) eqn:Hc;
        [|now destruct (negb _)].
      apply hasCopySemantics_length in Hc as (front' & Hr' & Hlen').
      rewrite Hr in Hr'. injection Hr' as <-. lia.
  - intros Hrelu. unfold isTppRelu in Hrelu.
    destruct (getNumLoops linalgOp =? getNumParallelLoops linalgOp)%nat
      eqn:Hloops; [|discriminate]. cbn [negb] in Hrelu.
    destruct (Nat.eqb_spec (getNumDpsInputs linalgOp) 0) as [Hin|];
      [|discriminate].
    unfold isTppIdentity. rewrite Hloops, Hin. reflexivity.
Qed.

Lemma isTpp_matchers_exclusive_witness :
  isTppAdd dynamicAdd = true
  /\ isTppRelu dynamicAdd = false /\ isTppIdentity dynamicAdd = false.
Proof.
  assert (Hadd : isTppAdd dynamicAdd = true) by reflexivity.
  split; [exact Hadd|].
  exact (proj1 (proj2 (isTpp_matchers_exclusive dynamicAdd)) Hadd).
Defined.

Section WithIR.
Context `{IRQueries}.

Lemma orElse_true a b :
  orElse a b = Some true -> a = Some true \/ b tt = Some true.
Proof. destruct a as [[|]|]; cbn; intros; auto; discriminate. Qed.

Lemma hasMaxfZeroLoop_true fuel genOp args (ops : list Operation) :
  hasMaxfZeroLoop fuel genOp args ops = Some true ->
  exists maxfOp lhs rhs rest,
    maxfOp ∈ ops /\ isaMaxF (getName maxfOp) = true
    /\ getOperands maxfOp = lhs :: rhs :: rest.
Proof.
  induction ops as [|op ops IH]; cbn; [discriminate|].
  destruct (isaMaxF (getName op)) eqn:Hmax.
  - destruct (getOperands op) as [|lhs [|rhs rest]] eqn:Hops.
    + intros (m & l & r & t & Hin & Hm)%IH.
      exists m, l, r, t. split; [now right|exact Hm].
    + intros (m & l & r & t & Hin & Hm)%IH.
      exists m, l, r, t. split; [now right|exact Hm].
    + intros [_|Hnext]%orElse_true.
      * exists op, lhs, rhs, rest. split; [now left|]. now split.
      * apply IH in Hnext as (m & l & r & t & Hin & Hm).
        exists m, l, r, t. split; [now right|exact Hm].
  - intros (m & l & r & t & Hin & Hm)%IH.
    exists m, l, r, t. split; [now right|exact Hm].
Qed.

(** [hasMaxfZeroOp] holds only for a [linalg.generic] with a single-block
    body that holds an [arith.maxf]. *)
Lemma hasMaxfZeroOp_true fuel (linalgOp : LinalgOp) :
  hasMaxfZeroOp fuel linalgOp = Some true ->
  isaGeneric (getName (operation linalgOp)) = true
  /\ exists front maxfOp,
       region linalgOp = [front] /\ maxfOp ∈ blockOps front
       /\ isaMaxF (getName maxfOp) = true.
Proof.
  unfold hasMaxfZeroOp.
  destruct (isaGeneric (getName (operation linalgOp))); [|discriminate].
  cbn [negb].
  destruct (region linalgOp) as [|front [|? ?]]; try discriminate.
  intros (m & _ & _ & _ & Hin & Hm & _)%hasMaxfZeroLoop_true.
  split; [reflexivity|]. eauto.
Qed.

(** X6.  At most one of [canMapToTppAdd], [canMapToTppRelu] and
    [canMapToTppIdentity] accepts a given operation: the relu needs an
    [arith.maxf] in a body of two operations, the addition a body without
    one, the identity a body of one operation. *)
Theorem canMapToTpp_exclusive (fuel : nat) (linalgOp : LinalgOp) :
  (canMapToTppAdd linalgOp = true ->
   canMapToTppRelu fuel linalgOp <> Some true
   /\ canMapToTppIdentity linalgOp = false)
  /\ (canMapToTppRelu fuel linalgOp = Some true ->
      canMapToTppIdentity linalgOp = false).
Proof.
  assert (Hid : forall front, region linalgOp = [front] ->
                  length (blockOps front) = 2%nat ->
                  canMapToTppIdentity linalgOp = false).
  { intros front Hr Hlen. unfold canMapToTppIdentity.
    destruct (negb (isElementwise linalgOp)); [reflexivity|].
    destruct (hasCopySemantics linalgOp) eqn:Hc; [|apply andb_false_r].
    apply hasCopySemantics_length in Hc as (front' & Hr' & Hlen').
    rewrite Hr in Hr'. injection Hr' as <-. lia. }
  split.
  - intros Hadd. unfold canMapToTppAdd in Hadd.
    destruct (negb (isElementwise linalgOp)); [discriminate|].
    destruct (_ || _); [discriminate|].
    pose proof Hadd as (front & a & b & Hr & Hops & Ha & Hb)
      %MatcherProofs.hasOnlyScalarElementwiseOp_true.
    split.
    + intros Hrelu. unfold canMapToTppRelu in Hrelu.
      destruct (negb (isElementwise linalgOp)); [discriminate|].
      destruct (negb (hasStaticShape linalgOp)); [discriminate|].
      destruct (hasMaxfZeroOp fuel linalgOp) as [[|]|] eqn:Hmax;
        try discriminate.
      apply hasMaxfZeroOp_true in Hmax as (_ & front' & mx & Hr' & Hin & Hmx).
      rewrite Hr in Hr'. injection Hr' as <-. rewrite Hops in Hin.
      unfold isScalarOpOrYield in Ha, Hb.
      apply andb_true_iff in Ha as [Ha _], Hb as [Hb _].
      apply elem_of_cons in Hin as [->|Hin].
      * destruct (getName a); discriminate.
      * apply list_elem_of_singleton in Hin as ->.
        destruct (getName b); discriminate.
    + apply (Hid front Hr). now rewrite Hops.
  - intros Hrelu. unfold canMapToTppRelu in Hrelu.
    destruct (negb (isElementwise linalgOp)) eqn:He; [discriminate|].
    destruct (negb (hasStaticShape linalgOp)); [discriminate|].
    destruct (hasMaxfZeroOp fuel linalgOp) as [[|]|]; try discriminate.
    injection Hrelu as Hrelu.
    apply hasOnlyScalarElementwiseOp_length in Hrelu as (front & Hr & Hlen).
    exact (Hid front Hr Hlen).
Qed.

End WithIR.

Lemma canMapToTpp_exclusive_witness :
  @canMapToTppAdd isolatedIR staticAdd = true
  /\ @canMapToTppRelu isolatedIR 1 staticAdd <> Some true
  /\ @canMapToTppIdentity isolatedIR staticAdd = false.
Proof.
  assert (Hadd : @canMapToTppAdd isolatedIR staticAdd = true) by reflexivity.
  split; [exact Hadd|].
  exact (proj1 (@canMapToTpp_exclusive isolatedIR 1 staticAdd) Hadd).
Defined.

Section WithIR.
Context `{IRQueries}.

(** X7.  A [linalg.generic] whose first [arith.maxf] has a constant zero as its
    right-hand side has a max-with-zero, whatever else is around. *)
Theorem hasMaxfZeroOp_constant_rhs (fuel : nat) (genOp : LinalgOp)
    (front : Block) (pre post : list Operation) (maxfOp : Operation)
    (lhs rhs : Value) (rest : list Value) :
  isaGeneric (getName (operation genOp)) = true ->
  region genOp = [front] ->
  blockOps front = pre ++ maxfOp :: post ->
  Forall (fun op => isaMaxF (getName op) = false) pre ->
  isaMaxF (getName maxfOp) = true ->
  getOperands maxfOp = lhs :: rhs :: rest ->
  isValConstZero rhs = true ->
  hasMaxfZeroOp fuel genOp = Some true.
Proof.
  intros Hgen Hr Hops Hpre Hmax Hoperands Hzero.
  unfold hasMaxfZeroOp. rewrite Hgen, Hr, Hops. cbn [negb].
  clear Hops.
  induction Hpre as [|op pre Hop _ IH]; cbn.
  - rewrite Hmax, Hoperands, Hzero. reflexivity.
  - rewrite Hop. exact IH.
Qed.

Lemma maxfUsesZeroOperand_arguments fuel genOp lhs rhs (args : list Value) :
  Forall (fun v => getDefiningOp v = None) (getOperands (operation genOp)) ->
  maxfUsesZeroOperand (S fuel) genOp lhs rhs args = Some false.
Proof.
  intros Hall. induction args as [|arg args IH]; [reflexivity|].
  cbn [maxfUsesZeroOperand].
  destruct (negb (valueEq arg lhs) && negb (valueEq arg rhs)); [exact IH|].
  destruct arg as [b n ty|]; [|exact IH].
  destruct (getOperands (operation genOp) !! n) as [operand|] eqn:Hn;
    [|exact IH].
  rewrite Forall_forall in Hall.
  assert (Hdef : getDefiningOp operand = None).
  { apply Hall. apply list_elem_of_lookup. eauto. }
  unfold isZeroTensor. rewrite Hdef. cbn. exact IH.
Qed.

(** X8.  The zero is looked for on the right: a [linalg.generic] over function
    arguments whose body is [arith.maxf] of a constant zero and a block
    argument, in this order, followed by the yield, has no max-with-zero
    for [hasMaxfZeroOp]. *)
Theorem hasMaxfZeroOp_constant_lhs (fuel : nat) (genOp : LinalgOp)
    (front : Block) (maxfOp terminator : Operation) (lhs rhs : Value) :
  isaGeneric (getName (operation genOp)) = true ->
  region genOp = [front] ->
  blockOps front = [maxfOp; terminator] ->
  isaMaxF (getName maxfOp) = true ->
  isaMaxF (getName terminator) = false ->
  getOperands maxfOp = [lhs; rhs] ->
  isValConstZero lhs = true ->
  getDefiningOp rhs = None ->
  Forall (fun v => getDefiningOp v = None) (getOperands (operation genOp)) ->
  hasMaxfZeroOp (S fuel) genOp = Some false.
Proof.
  intros Hgen Hr Hops Hmax Hterm Hoperands Hlhs Hrhs Hall.
  unfold hasMaxfZeroOp. rewrite Hgen, Hr, Hops. cbn [negb hasMaxfZeroLoop].
  rewrite Hmax, Hterm, Hoperands.
  assert (Hr0 : isValConstZero rhs = false)
    by (unfold isValConstZero; now rewrite Hrhs).
  assert (Hl : isZeroTensor (S fuel) lhs = Some false).
  { unfold isZeroTensor, isValConstZero in *.
    destruct (getDefiningOp lhs) as [op|]; [|discriminate]. cbn.
    destruct (getName op); try discriminate; reflexivity. }
  assert (Hr1 : isZeroTensor (S fuel) rhs = Some false)
    by (unfold isZeroTensor; now rewrite Hrhs).
  rewrite Hr0, Hl, Hr1. cbn [orElse].
  now rewrite maxfUsesZeroOperand_arguments.
Qed.

End WithIR.

(** The relu over a buffer with a dynamic extent, and the same with the
    operands of its [arith.maxf] swapped. *)
Lemma hasMaxfZeroOp_constant_rhs_witness :
  @hasMaxfZeroOp isolatedIR 0 dynamicRelu = Some true.
Proof.
  apply (@hasMaxfZeroOp_constant_rhs isolatedIR 0 dynamicRelu
           {| blockId := 1; blockArgTypes := [f32];
              blockOps := [maxfOp; yieldOp 11 (OpResult maxfOp 0)] |}
           [] [yieldOp 11 (OpResult maxfOp 0)] maxfOp
           (bodyArg 0) (OpResult zeroConstant 0) []);
    try reflexivity.
  constructor.
Defined.

Lemma hasMaxfZeroOp_constant_lhs_witness :
  @hasMaxfZeroOp isolatedIR 1 swappedRelu = Some false.
Proof.
  apply (@hasMaxfZeroOp_constant_lhs isolatedIR 0 swappedRelu
           {| blockId := 1; blockArgTypes := [f32];
              blockOps := [swappedMaxf;
                           yieldOp 11 (OpResult swappedMaxf 0)] |}
           swappedMaxf (yieldOp 11 (OpResult swappedMaxf 0))
           (OpResult zeroConstant 0) (bodyArg 0));
    try reflexivity.
  repeat constructor.
Defined.

Section WithIR.
Context `{IRQueries}.

(** X9.  A buffer that is not a zero tensor by its definition is one at a copy,
    view, cast or slice of it when the closest earlier user of its defining
    operation is a [linalg.fill] with a constant zero: the fill that wrote
    the zeros is found through the use list. *)
Theorem isZeroTensor_fill_before_use (fuel : nat)
    (op definingOp fill : Operation) (src input : Value) :
  transparentSource op = Some src ->
  getDefiningOp src = Some definingOp ->
  outsideZeroChase (getName definingOp) = true ->
  getPrevUser (Some definingOp) (Some op) = Some fill ->
  getName fill = LinalgFillOp ->
  getInputs fill = [input] ->
  isValConstZero input = true ->
  isZeroTensorOp (S (S fuel)) (Some op) = Some true.
Proof.
  intros Hsrc Hdef Hout Hprev Hname Hin Hzero.
  rewrite (ZeroTensorProofs.isZeroTensorOp_transparent _ _ _ Hsrc).
  unfold isZeroTensor. rewrite Hdef, Hprev.
  assert (Hfalse : isZeroTensorOp (S fuel) (Some definingOp) = Some false).
  { cbn. destruct (getName definingOp); try reflexivity; discriminate. }
  rewrite Hfalse. cbn [orElse isZeroTensorOp].
  now rewrite Hname, Hin, Hzero.
Qed.

End WithIR.

(** The copy of the buffer that was zero-filled. *)
Lemma isZeroTensor_fill_before_use_witness :
  @isZeroTensorOp filledThenCopied 2 (Some copyOfAlloc) = Some true.
Proof.
  apply (@isZeroTensor_fill_before_use filledThenCopied 0 copyOfAlloc
           allocOp fillOfAlloc (OpResult allocOp 0)
           (OpResult zeroConstant 0)); reflexivity.
Defined.

End TppUtilsFacts.

(** ** The zero chase along use lists *)
Module ZeroChaseProofs.
Import Mlir Affine Linalg TppUtils TppUtilsNotions.

Section WithIR.
Context `{IRQueries}.

Lemma getPrevUser_closestEarlierUser (d op p : Operation) :
  getPrevUser (Some d) (Some op) = Some p <-> closestEarlierUser d op p.
Proof. apply TppUtilsFacts.prevUserLoop_Some. Qed.

Lemma getPrevUser_hasNoEarlierUser (op : Operation) (src : Value) :
  transparentSource op = Some src -> hasNoEarlierUser op ->
  getPrevUser (getDefiningOp src) (Some op) = None.
Proof.
  intros Hsrc Hno.
  destruct (getDefiningOp src) as [d|] eqn:Hd; [|reflexivity].
  destruct (getPrevUser (Some d) (Some op)) as [p|] eqn:Hp; [|reflexivity].
  apply getPrevUser_closestEarlierUser in Hp.
  now destruct (Hno src d p Hsrc Hd).
Qed.

Lemma isZeroTensorOp_ends (fuel : nat) (z : option Operation) :
  endsZeroChase z -> isZeroTensorOp (S fuel) z = Some false.
Proof.
  destruct z as [d|]; [|reflexivity]. cbn.
  destruct (getName d); try reflexivity; discriminate.
Qed.

(** A looked-through operation that follows itself in the user list of the
    operation defining its source is its own closest earlier user: the
    chase calls itself there and does not return. *)
Lemma isZeroTensorOp_repeated_user (fuel : nat) (op d : Operation)
    (src : Value) (pre post : list Operation) :
  transparentSource op = Some src ->
  getDefiningOp src = Some d ->
  outsideZeroChase (getName d) = true ->
  getUsers d = pre ++ op :: op :: post ->
  Forall (fun u => opEq u op = false) pre ->
  isZeroTensorOp fuel (Some op) = None.
Proof.
  intros Hsrc Hd Hout Husers Hpre.
  assert (Hprev : getPrevUser (Some d) (Some op) = Some op).
  { apply getPrevUser_closestEarlierUser. exists pre, op, post.
    repeat split; [exact Husers| |exact Hpre].
    apply bool_decide_eq_true. reflexivity. }
  induction fuel as [|fuel IH]; [reflexivity|].
  rewrite (ZeroTensorProofs.isZeroTensorOp_transparent _ _ _ Hsrc).
  unfold isZeroTensor. rewrite Hd, Hprev.
  destruct fuel as [|fuel]; [reflexivity|].
  rewrite (isZeroTensorOp_ends fuel (Some d) Hout). exact IH.
Qed.

(** C6 (amended).  At the result of a [linalg.fill], [isZeroTensor]
    returns, and returns true exactly when the fill has a single input
    defined by a constant whose value is a float or integer zero.  Truth
    propagates backward through any chain of [linalg.copy], [memref.copy],
    [memref.subview], [tensor.cast] and [tensor.extract_slice].  At such
    an operation whose source is defined by an operation that is not a
    zero tensor, the result is that of the closest earlier user of that
    operation, the entry after the first occurrence of the operation at
    hand in its user list.  The result is false when the chain through the
    sources arrives at an operation outside the set or at a value without
    defining operation and no operation of the chain has a closest earlier
    user.  A result does not depend on how many further calls would have
    been allowed. *)
Theorem isZeroTensor_backward_chase :
  (forall fuel op i,
     getName op = LinalgFillOp ->
     (isZeroTensor (S fuel) (OpResult op i) = Some true
      <-> exists input c attr,
            getInputs op = [input]
            /\ getDefiningOp input = Some c
            /\ getName c = ArithConstantOp attr
            /\ isZeroAttribute attr)
     /\ isZeroTensor (S fuel) (OpResult op i) <> None)
  /\ (forall fuel ops o z,
        throughSources ops o z ->
        isZeroTensorOp fuel z = Some true ->
        isZeroTensorOp (length ops + fuel) o = Some true)
  /\ (forall fuel op src d p,
        transparentSource op = Some src ->
        getDefiningOp src = Some d ->
        isZeroTensorOp fuel (Some d) = Some false ->
        closestEarlierUser d op p ->
        isZeroTensorOp (S fuel) (Some op) = isZeroTensorOp fuel (Some p))
  /\ (forall fuel ops o z,
        throughSources ops o z ->
        Forall hasNoEarlierUser ops ->
        endsZeroChase z ->
        isZeroTensorOp (length ops + S fuel) o = Some false)
  /\ (forall fuel defOp b,
        isZeroTensorOp fuel defOp = Some b ->
        isZeroTensorOp (S fuel) defOp = Some b).
Proof.
  repeat apply conj.
  - intros fuel op i Hname. unfold isZeroTensor. cbn. rewrite Hname.
    destruct (getInputs op) as [|input [|? ?]] eqn:Hin.
    + split; [|discriminate]. split; [discriminate|].
      intros (? & ? & ? & ? & _). discriminate.
    + split; [|discriminate]. unfold isValConstZero, isZeroAttribute.
      split.
      * intros [= Hz]. exists input.
        destruct (getDefiningOp input) as [c|] eqn:Hc; [|discriminate].
        destruct (getName c) as [attr| | | | | | | | | | | | | | |] eqn:Hn;
          try discriminate.
        exists c, attr. repeat split; [exact Hn|].
        destruct attr as [[|]|v|[|]|v|]; try discriminate.
        -- now left.
        -- apply Z.eqb_eq in Hz. subst. now right; right; left.
        -- now right; left.
        -- apply Z.eqb_eq in Hz. subst. now right; right; right.
      * intros (input' & c & attr & [= <-] & -> & -> & Hz).
        destruct Hz as [->|[->|[->| ->]]]; reflexivity.
    + split; [|discriminate]. split; [discriminate|].
      intros (? & ? & ? & ? & _). discriminate.
  - intros fuel ops o z Hchain Htrue.
    induction Hchain as [z|op src ops z Hsrc _ IH]; [exact Htrue|].
    cbn [length Nat.add].
    rewrite (ZeroTensorProofs.isZeroTensorOp_transparent _ _ _ Hsrc).
    unfold isZeroTensor. now rewrite (IH Htrue).
  - intros fuel op src d p Hsrc Hd Hfalse Hp.
    rewrite (ZeroTensorProofs.isZeroTensorOp_transparent _ _ _ Hsrc).
    unfold isZeroTensor. rewrite Hd, Hfalse.
    apply getPrevUser_closestEarlierUser in Hp. now rewrite Hp.
  - intros fuel ops o z Hchain Hno Hend.
    induction Hchain as [z|op src ops z Hsrc _ IH].
    + now apply isZeroTensorOp_ends.
    + apply Forall_cons in Hno as [Hop Hno]. cbn [length Nat.add].
      rewrite (ZeroTensorProofs.isZeroTensorOp_transparent _ _ _ Hsrc).
      unfold isZeroTensor. rewrite (IH Hno Hend).
      rewrite (getPrevUser_hasNoEarlierUser _ _ Hsrc Hop).
      cbn. now destruct (length ops + S fuel)%nat.
  - apply ZeroTensorProofs.isZeroTensorOp_fuel_S.
Qed.

End WithIR.

(** The fill with zero, the fill with one and the slice of the zero fill;
    the copy of a filled buffer, which is what the fill before it is; the
    copy of a buffer nothing else uses. *)
Lemma isZeroTensor_backward_chase_witness :
  @isZeroTensor isolatedIR 1 (OpResult zeroFill 0) = Some true
  /\ @isZeroTensor isolatedIR 1 (OpResult fillOfOne 0) <> Some true
  /\ @isZeroTensorOp isolatedIR 2 (Some sliceOfZeroFill) = Some true
  /\ @isZeroTensorOp filledThenCopied 2 (Some copyOfAlloc)
     = @isZeroTensorOp filledThenCopied 1 (Some fillOfAlloc)
  /\ @isZeroTensorOp isolatedIR 2 (Some copyOfAlloc) = Some false.
Proof.
  pose proof (@isZeroTensor_backward_chase isolatedIR)
    as (Hfill & Hthrough & _ & Halone & _).
  pose proof (@isZeroTensor_backward_chase filledThenCopied)
    as (_ & _ & Hearlier & _).
  assert (Hzero : @isZeroTensor isolatedIR 1 (OpResult zeroFill 0)
                  = Some true).
  { apply (proj1 (Hfill 0%nat zeroFill 0%nat eq_refl)).
    exists (OpResult zeroConstant 0), zeroConstant, (FloatAttr true).
    repeat split. now left. }
  repeat apply conj.
  - exact Hzero.
  - intros Hone.
    apply (proj1 (Hfill 0%nat fillOfOne 0%nat eq_refl)) in Hone
      as (input & c & attr & [= <-] & [= <-] & [= <-] & Hz).
    destruct Hz as [Hz|[Hz|[Hz|Hz]]]; discriminate Hz.
  - apply (Hthrough 1%nat [sliceOfZeroFill] _ (Some zeroFill)).
    + apply (throughSources_step sliceOfZeroFill (OpResult zeroFill 0));
        [reflexivity|constructor].
    + exact Hzero.
  - apply (Hearlier 1%nat copyOfAlloc (OpResult allocOp 0) allocOp
             fillOfAlloc); try reflexivity.
    exists [], copyOfAlloc, []. repeat split. constructor.
  - apply (Halone 0%nat [copyOfAlloc] _ (Some allocOp)).
    + apply (throughSources_step copyOfAlloc (OpResult allocOp 0));
        [reflexivity|constructor].
    + repeat constructor. intros src d p _ _ (pre & c & post & Hu & _).
      now destruct pre.
    + reflexivity.
Defined.

(** The claim as stated fails for the copy of an allocated buffer that a
    [linalg.fill] zeroed before: through the source the chase arrives at
    the [memref.alloc], which is outside the set, and [isZeroTensor] is
    true. *)
Lemma isZeroTensor_true_past_outside_operation :
  throughSources [copyOfAlloc] (Some copyOfAlloc) (Some allocOp)
  /\ endsZeroChase (Some allocOp)
  /\ forall fuel,
       @isZeroTensorOp filledThenCopied (S (S fuel)) (Some copyOfAlloc)
       = Some true.
Proof.
  repeat apply conj.
  - apply (throughSources_step copyOfAlloc (OpResult allocOp 0));
      [reflexivity|constructor].
  - reflexivity.
  - intros fuel. reflexivity.
Qed.


End ZeroChaseProofs.

(** ** The library-call mark ([hasTppMark], [isMarkedWithTpp]) *)
Module TppMarkFacts.
Import Mlir Linalg TppUtils TppMark.

#[local] Open Scope string_scope.

(** A string splits at the first occurrence of the delimiter. *)
Lemma find_Some_split (d : ascii) (s : string) (i : nat) :
  find d s = Some i ->
  exists rest, s = takeString i s ++ String d rest.
Proof.
  revert i. induction s as [|c s IH]; intros i; cbn; [discriminate|].
  destruct (Ascii.eqb_spec c d) as [->|Hne].
  - intros [= <-]. now exists s.
  - destruct (find d s) as [j|]; [|discriminate].
    intros [= <-]. destruct (IH j eq_refl) as [rest Hrest].
    exists rest. cbn. now rewrite <- Hrest.
Qed.

Lemma prefix_is_tpp (s : string) :
  String.eqb (substr0 s (find "." s)) "tpp" = true <-> isTppName s.
Proof.
  unfold isTppName. split.
  - intros Heq%String.eqb_eq.
    destruct (find "." s) as [i|] eqn:Hfind; cbn in Heq.
    + right. destruct (find_Some_split _ _ _ Hfind) as [rest Hrest].
      exists rest. now rewrite Heq in Hrest.
    + now left.
  - intros [->|[rest ->]]; reflexivity.
Qed.

Section WithLibraryCall.
Context `{LibraryCallQuery}.

Lemma hasTppMark_true (linalgOp : LinalgOp) :
  hasTppMark linalgOp = true
  <-> isaGeneric (getName (operation linalgOp)) = true
      /\ isTppName (getLibraryCallName linalgOp).
Proof.
  unfold hasTppMark.
  destruct (isaGeneric (getName (operation linalgOp))); cbn [negb].
  - destruct (getLibraryCallName linalgOp) as [|c s] eqn:Hname.
    + cbn. split; [discriminate|].
      intros [_ [Hn|[rest Hn]]]; discriminate.
    + cbn [isEmptyString]. rewrite prefix_is_tpp. tauto.
  - split; [discriminate|]. now intros [? _].
Qed.

(** X10.  [hasTppMark] holds exactly for a [linalg.generic] whose library call is
    [tpp] or begins with [tpp.]; [isMarkedWithTpp] holds exactly when, in
    addition, the library call is the target, so it never holds for a
    target that does not carry the prefix itself. *)
Theorem isMarkedWithTpp_true (linalgOp : LinalgOp) (target : string) :
  (hasTppMark linalgOp = true
   <-> isaGeneric (getName (operation linalgOp)) = true
       /\ isTppName (getLibraryCallName linalgOp))
  /\ (isMarkedWithTpp linalgOp target = true
      <-> isaGeneric (getName (operation linalgOp)) = true
          /\ getLibraryCallName linalgOp = target
          /\ isTppName target)
  /\ (~ isTppName target -> isMarkedWithTpp linalgOp target = false).
Proof.
  assert (Hmarked : isMarkedWithTpp linalgOp target = true
            <-> isaGeneric (getName (operation linalgOp)) = true
                /\ getLibraryCallName linalgOp = target
                /\ isTppName target).
  { unfold isMarkedWithTpp.
    destruct (hasTppMark linalgOp) eqn:Hmark; cbn [negb].
    - apply hasTppMark_true in Hmark as [Hgen Hname].
      rewrite String.eqb_eq. split.
      + intros <-. now repeat split.
      + now intros (_ & ? & _).
    - split; [discriminate|]. intros (Hgen & <- & Hname).
      rewrite (proj2 (hasTppMark_true linalgOp)) in Hmark by easy.
      discriminate. }
  split; [apply hasTppMark_true|]. split; [exact Hmarked|].
  intros Hnot. apply not_true_is_false. intros E.
  apply Hmarked in E as (_ & _ & Hname). contradiction.
Qed.

End WithLibraryCall.

(** A generic marked [tpp.add] against the targets [tpp.add] and
    [xsmm.add]. *)
Lemma isMarkedWithTpp_true_witness :
  @isMarkedWithTpp (calls "tpp.add") (namedOp LinalgGenericOp) "tpp.add"
  = true
  /\ @isMarkedWithTpp (calls "xsmm.add") (namedOp LinalgGenericOp) "xsmm.add"
     = false.
Proof.
  split.
  - apply (proj1 (proj2 (@isMarkedWithTpp_true (calls "tpp.add")
                           (namedOp LinalgGenericOp) "tpp.add"))).
    repeat split. right. now exists "add".
  - apply (proj2 (proj2 (@isMarkedWithTpp_true (calls "xsmm.add")
                           (namedOp LinalgGenericOp) "xsmm.add"))).
    intros [Hn|[rest Hn]]; discriminate.
Defined.

End TppMarkFacts.

(** ** Further properties of lib/TPP/ConvertLinalgToXsmm.cpp *)
Module XsmmFacts.
Import Mlir Affine Linalg LinalgToXsmm.

Ltac broadcast_case :=
  cbn; unfold isProjectedPermutation, isMinorIdentityWithBroadcasting; cbn;
  repeat match goal with
    | |- context [Z.eqb ?c 0] =>
        destruct (Z.eqb_spec c 0); [subst|]; cbn
    end;
  unfold d0, d1, c0;
  (split;
   [ intros Hres; try discriminate Hres; injection Hres as <-;
     repeat split; auto 10
   | intros (_ & _ & [[Hrs Hr]|[[Hrs Hr]|[[[Hrs|Hrs] Hr]|[Hrs Hr]]]]);
     try discriminate Hrs; try (injection Hrs as ?; subst; try lia);
     try congruence ]).

(** X11.  [getBroadCastFromMap] succeeds on exactly five maps over two dimensions:
    [()] is SCALAR, [(d0, d1)] is NONE, [(d1)] and [(0, d1)] are COL,
    [(d0, 0)] is ROW.  In particular [(d0)], a 1-D operand indexed by the
    outer dimension, is rejected. *)
Theorem getBroadCastFromMap_exact (map : AffineMap) (r : BroadCastType.t) :
  getBroadCastFromMap map = Some r
  <-> numDims map = 2%nat /\ numSymbols map = 0%nat
      /\ ((results map = [] /\ r = BroadCastType.SCALAR)
          \/ (results map = [d0; d1] /\ r = BroadCastType.NONE)
          \/ ((results map = [d1] \/ results map = [c0; d1])
              /\ r = BroadCastType.COL)
          \/ (results map = [d0; c0] /\ r = BroadCastType.ROW)).
Proof.
  destruct map as [nd ns rs]. unfold getBroadCastFromMap.
  unfold getNumInputs, getNumResults, getNumSymbols.
  cbn [numDims numSymbols results].
  destruct (_ || _) eqn:G.
  - split; [discriminate|]. intros (-> & -> & Hrs).
    destruct Hrs as [[-> _]|[[-> _]|[[[->| ->] _]|[-> _]]]]; discriminate.
  - apply orb_false_iff in G as [G G3]. apply orb_false_iff in G as [G1 G2].
    apply negb_false_iff, Nat.eqb_eq in G2, G3. subst ns.
    rewrite Nat.add_0_r in *. subst nd.
    apply Nat.ltb_ge in G1.
    destruct rs as [|e1 [|e2 [|e3 rs]]]; [| | |cbn in G1; lia].
    + broadcast_case.
    + destruct e1 as [[|[|p]]| |c|]; broadcast_case.
    + destruct e1 as [[|[|p]]| |c|]; destruct e2 as [[|[|q]]| |c'|];
        broadcast_case.
Qed.

(** The 1-D maps: [(d0, d1) -> (d1)] is COL, [(d0, d1) -> (d0)] fails. *)
Lemma getBroadCastFromMap_exact_witness :
  getBroadCastFromMap (map2 [d1]) = Some BroadCastType.COL
  /\ getBroadCastFromMap (map2 [d0]) = None.
Proof.
  split.
  - apply getBroadCastFromMap_exact. repeat split. auto 10.
  - destruct (getBroadCastFromMap (map2 [d0])) as [r|] eqn:E; [|reflexivity].
    apply getBroadCastFromMap_exact
      in E as (_ & _ & [[Hrs _]|[[Hrs _]|[[[Hrs|Hrs] _]|[Hrs _]]]]);
      discriminate Hrs.
Defined.

Lemma findOperand_Some (operands : list Value) (val : Value) (start pos : nat) :
  findOperand operands val start = Some pos
  <-> exists i v, pos = (start + i)%nat /\ operands !! i = Some v
        /\ valueEq v val = true
        /\ forall j w, (j < i)%nat -> operands !! j = Some w ->
                       valueEq w val = false.
Proof.
  revert start. induction operands as [|operand rest IH]; intros start; cbn.
  - split; [discriminate|]. now intros (i & v & _ & Hv & _).
  - destruct (valueEq operand val) eqn:Heq.
    + split.
      * intros [= <-]. exists 0%nat, operand.
        repeat split; [lia|exact Heq|]. intros j w Hj. lia.
      * intros ([|i] & v & -> & Hv & Hval & Hfirst).
        -- f_equal. lia.
        -- specialize (Hfirst 0%nat operand ltac:(lia) eq_refl). congruence.
    + rewrite IH. split.
      * intros (i & v & -> & Hv & Hval & Hfirst).
        exists (S i), v. repeat split; [lia|exact Hv|exact Hval|].
        intros [|j] w Hj Hw; [now injection Hw as <-|].
        apply (Hfirst j w); [lia|exact Hw].
      * intros ([|i] & v & -> & Hv & Hval & Hfirst).
        -- injection Hv as <-. congruence.
        -- exists i, v. repeat split; [lia|exact Hv|exact Hval|].
           intros j w Hj Hw. apply (Hfirst (S j) w); [lia|exact Hw].
Qed.

Lemma findOperand_None (operands : list Value) (val : Value) (start : nat) :
  findOperand operands val start = None
  <-> Forall (fun v => valueEq v val = false) operands.
Proof.
  revert start. induction operands as [|operand rest IH]; intros start; cbn.
  - split; [constructor|reflexivity].
  - destruct (valueEq operand val) eqn:Heq.
    + split; [discriminate|]. intros [Hv _]%Forall_cons. congruence.
    + rewrite IH. split; [now constructor|]. now intros [_ ?]%Forall_cons.
Qed.

(** X12.  [getOperandFromValue] returns the position, among all operands of the
    operation, of the first operand that is the value; the assertion fails
    exactly when no operand is. *)
Theorem getOperandFromValue_first (genericOp : LinalgOp) (val : Value) :
  (forall pos, getOperandFromValue genericOp val = Returns pos
     <-> exists v, getOperands (operation genericOp) !! pos = Some v
           /\ valueEq v val = true
           /\ forall j w, (j < pos)%nat ->
                getOperands (operation genericOp) !! j = Some w ->
                valueEq w val = false)
  /\ (getOperandFromValue genericOp val = Asserts
      <-> Forall (fun v => valueEq v val = false)
                 (getOperands (operation genericOp))).
Proof.
  unfold getOperandFromValue, getDpsInputs, getDpsInits, getInputs, getInits.
  destruct (operation genericOp) as [id name operands k tys nested].
  cbn [getOperands]. rewrite take_drop. split.
  - intros pos.
    destruct (findOperand operands val 0) as [p|] eqn:Hfind.
    + apply findOperand_Some in Hfind as (i & v & -> & Hv & Hval & Hfirst).
      cbn. split.
      * intros [= <-]. eauto.
      * intros (v' & Hv' & Hval' & Hfirst'). f_equal.
        destruct (Nat.lt_trichotomy i pos) as [Hlt|[->|Hgt]];
          [|reflexivity|].
        -- specialize (Hfirst' i v Hlt Hv). congruence.
        -- specialize (Hfirst pos v' Hgt Hv'). congruence.
    + split; [discriminate|]. intros (v & Hv & Hval & _).
      apply findOperand_None in Hfind. rewrite Forall_forall in Hfind.
      rewrite Hfind in Hval; [discriminate|].
      apply list_elem_of_lookup. eauto.
  - rewrite <- (findOperand_None operands val 0).
    destruct (findOperand operands val 0); split; congruence.
Qed.

Lemma getOperandFromValue_first_witness :
  getOperandFromValue
    (opOnBuffers LinalgGenericOp (memref2D 0 8 4) (memref2D 1 4 8))
    (memref2D 1 4 8) = Returns 1%nat.
Proof.
  apply (proj1 (getOperandFromValue_first _ _)).
  exists (memref2D 1 4 8). repeat split.
  intros [|j] w Hj Hw; [now injection Hw as <-|lia].
Defined.

Section WithQueries.
Context `{XsmmQueries}.

Lemma replaceOpWithUnary_Returns rewriter linalgOp info flags kind r :
  replaceOpWithUnary rewriter linalgOp info flags kind = Returns r ->
  exists init rest, getDpsInits linalgOp = init :: rest
    /\ r = afterUnary rewriter linalgOp init kind
             [m info; n info; ldi info; ldo info] flags.
Proof.
  unfold replaceOpWithUnary.
  destruct (getDpsInits linalgOp) as [|init rest]; [discriminate|].
  intros [= <-]. eauto.
Qed.

(** X13.  A pattern that returns success found its preconditions met and did
    exactly one thing: it appended to the rewriter a dispatch and the
    replacement of the matched operation by the invoke of that dispatch,
    the dimensions being those of [getUnaryInfo] ([m] and [n] swapped for
    the transpose) and the data type that of the first init. *)
Theorem pattern_success_sound (op : LinalgOp) (rewriter rewriter' : Rewriter) :
  (ConvertFillOpToUnaryZero op rewriter = Returns (success, rewriter') ->
   exists input output info init rest,
     isTwoDFillOpWithZeros op = Some [input; output]
     /\ getUnaryInfo input output = Returns (Some info)
     /\ getDpsInits op = init :: rest
     /\ rewriter' = afterUnary rewriter op init ZERO
                      [m info; n info; ldi info; ldo info]
                      [UnaryFlags.BCAST_SCALAR])
  /\ (ConvertTransposeOpToUnaryTranspose op rewriter
      = Returns (success, rewriter') ->
      exists input output info init rest,
        isTwoDTransposeOp op = Some [input; output]
        /\ getUnaryInfo input output = Returns (Some info)
        /\ getDpsInits op = init :: rest
        /\ rewriter' = afterUnary rewriter op init TRANSPOSE
                         [n info; m info; ldi info; ldo info]
                         [UnaryFlags.NONE])
  /\ (ConvertGenericToUnaryRelu op rewriter = Returns (success, rewriter') ->
      exists input output info init rest pos map flag,
        hasBufferSemantics op = true
        /\ isTwoDReluOp op = Some [input; output]
        /\ getUnaryInfo input output = Returns (Some info)
        /\ getOperandFromValue op input = Returns pos
        /\ getMatchingIndexingMap op pos = Some map
        /\ getBroadCastUnaryFlagFromMap map = Some flag
        /\ getDpsInits op = init :: rest
        /\ rewriter' = afterUnary rewriter op init RELU
                         [m info; n info; ldi info; ldo info] [flag]).
Proof.
  repeat apply conj.
  - unfold ConvertFillOpToUnaryZero.
    destruct (isTwoDFillOpWithZeros op) as [[|a [|b [|? ?]]]|];
      try discriminate.
    destruct (getUnaryInfo a b) as [|[info|]] eqn:Hinfo; try discriminate.
    cbn.
    destruct (replaceOpWithUnary _ _ _ _ _) as [|r] eqn:Hr; [discriminate|].
    intros [= <-].
    apply replaceOpWithUnary_Returns in Hr as (init & rest & Hi & ->).
    exists a, b, info, init, rest. now repeat split.
  - unfold ConvertTransposeOpToUnaryTranspose.
    destruct (isTwoDTransposeOp op) as [[|a [|b [|? ?]]]|];
      try discriminate.
    destruct (getUnaryInfo a b) as [|[info|]] eqn:Hinfo; try discriminate.
    cbn.
    destruct (replaceOpWithUnary _ _ _ _ _) as [|r] eqn:Hr; [discriminate|].
    intros [= <-].
    apply replaceOpWithUnary_Returns in Hr as (init & rest & Hi & ->).
    exists a, b, info, init, rest. now repeat split.
  - unfold ConvertGenericToUnaryRelu.
    destruct (hasBufferSemantics op) eqn:Hbuf; [|discriminate]. cbn [negb].
    destruct (isTwoDReluOp op) as [[|a [|b [|? ?]]]|]; try discriminate.
    destruct (getUnaryInfo a b) as [|[info|]] eqn:Hinfo; try discriminate.
    cbn.
    destruct (getOperandFromValue op a) as [|pos] eqn:Hpos; [discriminate|].
    cbn.
    destruct (getMatchingIndexingMap op pos) as [map|] eqn:Hmap;
      [|discriminate].
    destruct (getBroadCastUnaryFlagFromMap map) as [flag|] eqn:Hflag;
      [|discriminate].
    destruct (replaceOpWithUnary _ _ _ _ _) as [|r] eqn:Hr; [discriminate|].
    intros [= <-].
    apply replaceOpWithUnary_Returns in Hr as (init & rest & Hi & ->).
    exists a, b, info, init, rest, pos, map, flag. now repeat split.
Qed.

End WithQueries.

(** The transpose of an 8x4 buffer into a 4x8 buffer. *)
Lemma pattern_success_sound_witness :
  let Q := identityLayoutQueries in
  let op := opOnBuffers LinalgTransposeOp (memref2D 0 8 4) (memref2D 1 4 8) in
  exists rewriter',
    ConvertTransposeOpToUnaryTranspose op emptyRewriter
    = Returns (success, rewriter')
    /\ nextOpId rewriter' = 102%nat
    /\ length (actions rewriter') = 2%nat.
Proof.
  intros Q op.
  destruct (ConvertTransposeOpToUnaryTranspose op emptyRewriter)
    as [|[[|] r]] eqn:E; try discriminate E.
  exists r. split; [reflexivity|].
  destruct (proj1 (proj2 (@pattern_success_sound Q op emptyRewriter r)) E)
    as (? & ? & ? & ? & ? & _ & _ & _ & ->).
  split; reflexivity.
Defined.

End XsmmFacts.

(** ** lib/TPP/ConvertVectorToXeGPU.cpp: what an accepted transfer is *)
Module XeGPUFacts.
Import Mlir Affine LinalgToXsmm VectorToXeGPU.

(** X14.  A zero constant for [isZeroConstant] is one for [isValConstZero] of
    TppUtils.cpp. *)
Theorem isZeroConstant_isValConstZero (val : Value) :
  isZeroConstant val = true -> TppUtils.isValConstZero val = true.
Proof.
  unfold isZeroConstant, TppUtils.isValConstZero.
  destruct (getDefiningOp val) as [op|]; [|discriminate].
  destruct (getName op) as [[]| | | | | | | | | | | | | | |]; auto;
    discriminate.
Qed.

Lemma isZeroConstant_isValConstZero_witness :
  TppUtils.isValConstZero (OpResult TppUtils.zeroConstant 0) = true.
Proof. apply isZeroConstant_isValConstZero. reflexivity. Defined.

Lemma innermostLoop_Matched (bound : Z) (exprs : list AffineExpr) :
  innermostLoop bound exprs = Returns Matched ->
  Forall (fun e => exists p, e = AffineDimExpr p /\ bound <= Z.of_nat p)
         exprs.
Proof.
  induction exprs as [|e exprs IH]; cbn; [constructor|].
  destruct e as [p| | |]; try discriminate.
  destruct (Z.ltb_spec (Z.of_nat p) bound); [discriminate|].
  intros Hrest. constructor; [eauto|auto].
Qed.

Section WithStrides.
Context `{StridesQuery}.

Lemma transferPreconditions_Matched (xferOp : VectorTransferOp) :
  transferPreconditions xferOp = Returns Matched ->
  getMask xferOp = None
  /\ (exists shape, getShapedType xferOp = MemRefType shape)
  /\ (vectorRank xferOp = 1%nat \/ vectorRank xferOp = 2%nat)
  /\ (exists strides,
        getStridesAndOffset (getShapedType xferOp) = Some strides
        /\ last strides = Some 1)
  /\ isProjectedPermutation (getPermutationMap xferOp) false = true
  /\ innermostLoop
       (toUnsigned (Z.of_nat (getNumInputs (getPermutationMap xferOp))
                    - Z.of_nat (vectorRank xferOp)))
       (take_back (vectorRank xferOp) (results (getPermutationMap xferOp)))
     = Returns Matched.
Proof.
  unfold transferPreconditions.
  destruct (getMask xferOp); [discriminate|].
  destruct (getShapedType xferOp) as [| | |shape| | | |] eqn:Hty;
    try discriminate.
  destruct (Nat.eqb_spec (vectorRank xferOp) 1) as [H1|H1];
    destruct (Nat.eqb_spec (vectorRank xferOp) 2) as [H2|H2];
    cbn [orb negb]; try discriminate.
  all: destruct (getStridesAndOffset (MemRefType shape)) as [strides|] eqn:Hs;
    [|discriminate].
  all: unfold back; destruct (last strides) as [b|] eqn:Hb; [|discriminate].
  all: cbn; destruct (Z.eqb_spec b 1) as [->|]; [|discriminate]; cbn [negb].
  all: destruct (isProjectedPermutation _ false) eqn:Hpp; [|discriminate].
  all: cbn [negb]; intros Hloop; repeat split; eauto.
Qed.

(** X15.  A transfer that [transferPreconditions] accepts has no mask, a
    memref source for which [getStridesAndOffset] succeeds with the
    innermost stride equal to 1 (the other strides may be dynamic), a
    vector of rank 1 or 2, and reads the innermost dimensions: its
    permutation map, with one result per vector dimension and every
    position below the number of dimensions, is the minor identity or, for
    a 2-D vector, the two innermost dimensions swapped. *)
Theorem transferPreconditions_accepts (xferOp : VectorTransferOp) :
  let map := getPermutationMap xferOp in
  transferPreconditions xferOp = Returns Matched ->
  dimsInRange map ->
  getNumResults map = vectorRank xferOp ->
  Z.of_nat (numDims map) < 2 ^ 32 ->
  getMask xferOp = None
  /\ (exists shape strides,
        getShapedType xferOp = MemRefType shape
        /\ getStridesAndOffset (getShapedType xferOp) = Some strides
        /\ last strides = Some 1)
  /\ (vectorRank xferOp = 1%nat \/ vectorRank xferOp = 2%nat)
  /\ (isMinorIdentity map = true
      \/ (vectorRank xferOp = 2%nat
          /\ results map = [AffineDimExpr (numDims map - 1);
                            AffineDimExpr (numDims map - 2)])).
Proof.
  intros map Hmatch Hrange Hresults Hsmall.
  apply transferPreconditions_Matched in Hmatch
    as (Hmask & [shape Hty] & Hrank & (strides & Hs & Hlast) & Hpp & Hloop).
  split; [exact Hmask|]. split; [eauto|]. split; [exact Hrank|].
  fold map in Hpp, Hloop.
  unfold isProjectedPermutation in Hpp.
  destruct (Nat.ltb_spec 0 (getNumSymbols map)) as [|Hsym]; [discriminate|].
  assert (Hns : numSymbols map = 0%nat) by (unfold getNumSymbols in *; lia).
  destruct (Nat.ltb_spec (getNumInputs map) (getNumResults map)) as [|Hle];
    [discriminate|].
  unfold take_back in Hloop. unfold getNumResults in Hresults.
  rewrite Hresults, Nat.sub_diag, drop_0 in Hloop.
  apply innermostLoop_Matched in Hloop.
  unfold dimsInRange in Hrange.
  unfold getNumInputs, getNumResults in *. rewrite Hns, Nat.add_0_r in *.
  set (n := numDims map) in *.
  assert (Hbound : toUnsigned (Z.of_nat n - Z.of_nat (vectorRank xferOp))
                   = Z.of_nat n - Z.of_nat (vectorRank xferOp)).
  { unfold toUnsigned. apply Z.mod_small. lia. }
  rewrite Hbound in Hloop.
  assert (Hmap : map = {| numDims := n; numSymbols := 0;
                          results := results map |}).
  { subst n. destruct map as [nd ns rs']. cbn in *. now subst. }
  unfold isMinorIdentity, getMinorIdentityMap, getNumResults, getNumDims.
  fold n. rewrite (proj2 (Nat.leb_le _ _) Hle). cbn [andb].
  destruct (results map) as [|e1 [|e2 [|e3 rs]]] eqn:Hrs; cbn in Hresults.
  - lia.
  - left. apply bool_decide_eq_true.
    apply Forall_cons in Hloop as [(p & -> & Hp) _].
    apply Forall_cons in Hrange as [Hp' _].
    rewrite <- Hresults in Hp. rewrite Hmap. cbn.
    do 3 f_equal. lia.
  - apply Forall_cons in Hloop as [(p & -> & Hp) Hloop].
    apply Forall_cons in Hloop as [(q & -> & Hq) _].
    apply Forall_cons in Hrange as [Hp' Hrange].
    apply Forall_cons in Hrange as [Hq' _].
    rewrite <- Hresults in Hp, Hq.
    assert (Hne : p <> q).
    { intros <-. cbn in Hpp.
      rewrite lookup_replicate_2 in Hpp by exact Hp'. cbn in Hpp.
      rewrite list_lookup_insert_eq in Hpp
        by (rewrite length_replicate; exact Hp').
      discriminate. }
    destruct (decide (p = n - 2)%nat) as [Hpe|Hpe].
    + left. apply bool_decide_eq_true. rewrite Hmap. cbn.
      do 3 f_equal; [lia|]. do 2 f_equal. lia.
    + right. split; [lia|]. do 3 f_equal; [lia|]. do 2 f_equal. lia.
  - lia.
Qed.

End WithStrides.

(** The transposed read of a 16x32 buffer. *)
Lemma transferPreconditions_accepts_witness :
  @transferPreconditions identityLayout transposedRead = Returns Matched
  /\ isMinorIdentity (getPermutationMap transposedRead) = false
  /\ results (getPermutationMap transposedRead)
     = [AffineDimExpr 1; AffineDimExpr 0].
Proof.
  assert (Hm : @transferPreconditions identityLayout transposedRead
               = Returns Matched) by reflexivity.
  split; [exact Hm|]. split; [reflexivity|].
  destruct (@transferPreconditions_accepts identityLayout transposedRead Hm)
    as (_ & _ & _ & [Hid|[_ Hswap]]).
  - repeat constructor.
  - reflexivity.
  - reflexivity.
  - discriminate Hid.
  - exact Hswap.
Defined.

End XeGPUFacts.
